(* A shallow embedding of the browser resource manager of mcp-webresearch:
   the circuit breaker, the browser pool with its request queue, the
   navigation protocol, the page validator, consent dismissal and instance
   recycling.

   The repository carries two versions of the service:
   - src/src/services/browser.ts (on playwright), embedded in [Playwright];
   - src/unnamed/part_017 (on patchright), embedded in [Patchright].
   Parts that are textually identical in both are embedded once.

   JS numbers are modelled as Z (milliseconds, counters); timestamps
   ([Date.now()]) are inputs of the operations that read them. *)

From Stdlib Require Import ZArith List String Ascii Bool Lia Sorted.
Import ListNotations.
Open Scope string_scope.
Open Scope Z_scope.

(* ------------------------------------------------------------------ *)
(** * Configuration (src/src/config/index.ts) *)

Record Config := mkConfig {
  maxConcurrentBrowsers : Z;
  maxRetries : Z;
  initialRetryDelay : Z;
  maxRetryDelay : Z;
  minContentWords : Z;
  maxPageLoadTime : Z;
  maxMemoryMB : Z;
  criticalRequestThreshold : Z;
  maxQueueSize : Z;
  queueTimeoutMs : Z;
  failureThreshold : Z;
  resetTimeout : Z;
  allowedProtocols : list string;
  maxUrlLength : Z;
  CONSENT_REGIONS : list string
}.

(** The values of src/src/config/index.ts. *)
Definition config_src : Config := {|
  maxConcurrentBrowsers := 1;
  maxRetries := 2;
  initialRetryDelay := 500;
  maxRetryDelay := 2000;
  minContentWords := 10;
  maxPageLoadTime := 20000;
  maxMemoryMB := 512;
  criticalRequestThreshold := 10000;
  maxQueueSize := 1;
  queueTimeoutMs := 15000;
  failureThreshold := 2;
  resetTimeout := 15000;
  allowedProtocols := ["http:"; "https:"];
  maxUrlLength := 2048;
  CONSENT_REGIONS := ["google.com"; "google.co.uk"; "google.de"; "google.fr";
    "google.it"; "google.es"; "google.nl"; "google.pl"; "google.ie";
    "google.dk"; "google.se"; "google.no"; "google.fi"; "google.pt";
    "google.ch"; "google.at"; "google.be"]
|}.

(* ------------------------------------------------------------------ *)
(** * Circuit breaker (identical in both versions) *)

Inductive CBState := CLOSED | OPEN | HALF_OPEN.

Definition CBState_eqb (a b : CBState) : bool :=
  match a, b with
  | CLOSED, CLOSED | OPEN, OPEN | HALF_OPEN, HALF_OPEN => true
  | _, _ => false
  end.

Record CircuitBreaker := mkCB {
  state : CBState;
  failures : Z;
  lastFailure : Z;
  lastSuccess : Z
}.

(** The breaker made by the constructor of [BrowserPool]. *)
Definition initialCircuitBreaker (now : Z) : CircuitBreaker :=
  mkCB CLOSED 0 0 now.

(** [updateCircuitBreaker(success)], with [now = Date.now()]. *)
Definition updateCircuitBreaker (cfg : Config) (now : Z) (success : bool)
    (cb : CircuitBreaker) : CircuitBreaker :=
  if success then
    let cb1 := if CBState_eqb (state cb) HALF_OPEN
               then mkCB CLOSED 0 (lastFailure cb) (lastSuccess cb)
               else cb in
    mkCB (state cb1) (failures cb1) (lastFailure cb1) now
  else
    let f := failures cb + 1 in
    let st := if f >=? failureThreshold cfg then OPEN else state cb in
    mkCB st f now (lastSuccess cb).

(** One tick of the interval set by [startCircuitBreakerMonitoring]. *)
Definition circuitBreakerMonitorTick (cfg : Config) (now : Z)
    (cb : CircuitBreaker) : CircuitBreaker :=
  if CBState_eqb (state cb) OPEN && (now - lastFailure cb >? resetTimeout cfg)
  then mkCB HALF_OPEN 0 (lastFailure cb) (lastSuccess cb)
  else cb.

(** A run of reported outcomes [(time, success)] with no monitoring tick. *)
Fixpoint reportOutcomes (cfg : Config) (outs : list (Z * bool))
    (cb : CircuitBreaker) : CircuitBreaker :=
  match outs with
  | [] => cb
  | (t, ok) :: rest => reportOutcomes cfg rest (updateCircuitBreaker cfg t ok cb)
  end.

Definition count_failures (outs : list (Z * bool)) : Z :=
  Z.of_nat (List.length (filter (fun o => negb (snd o)) outs)).

(* ------------------------------------------------------------------ *)
(** * Browser pool and request queue ([BrowserPool]) *)

(** A pool entry. The browser, context and page handles are represented
    by the instance's identifier and whether its page is closed. *)
Record BrowserInstance := mkInst {
  inst_id : nat;
  lastUsed : Z;
  memoryUsage : Z;
  failureCount : Z;
  pageClosed : bool
}.

(** How an [acquirePage] promise settled. *)
Inductive Outcome :=
| Resolved (page_of : nat)
| Rejected (msg : string).

(** A [processQueue] call suspended at one of its [await]s. *)
Inductive Task :=
| AfterCleanup               (* await this.cleanupExpiredInstances() *)
| AfterCreate                (* await this.createBrowserInstance() *)
| AfterRecycle (target : nat). (* await this.recycleBrowserInstance(oldest) *)

(** The result of an awaited browser operation when a task resumes. *)
Inductive Completion :=
| Done                       (* the awaited call returned *)
| Threw (msg : string)       (* the awaited call threw *)
| Replaced (msg : string).   (* recycling threw and its catch replaced the instance *)

Record PoolState := mkPool {
  pool : list BrowserInstance;
  requestQueue : list (nat * Z);      (* request, timestamp *)
  tasks : list Task;
  circuitBreaker : CircuitBreaker;
  started : list (nat * Z);           (* requests that entered the queue, with time *)
  settled : list (nat * Outcome);     (* settled acquirePage promises *)
  nextInst : nat;
  nextReq : nat
}.

Definition initialPool (now : Z) : PoolState :=
  mkPool [] [] [] (initialCircuitBreaker now) [] [] 0 0.

Definition set_pool s p := mkPool p (requestQueue s) (tasks s) (circuitBreaker s) (started s) (settled s) (nextInst s) (nextReq s).
Definition set_queue s q := mkPool (pool s) q (tasks s) (circuitBreaker s) (started s) (settled s) (nextInst s) (nextReq s).
Definition set_tasks s t := mkPool (pool s) (requestQueue s) t (circuitBreaker s) (started s) (settled s) (nextInst s) (nextReq s).
Definition set_cb s c := mkPool (pool s) (requestQueue s) (tasks s) c (started s) (settled s) (nextInst s) (nextReq s).

Definition is_settled (s : PoolState) (r : nat) : bool :=
  existsb (fun p => Nat.eqb (fst p) r) (settled s).

Definition outcome_ok (o : Outcome) : bool :=
  match o with Resolved _ => true | Rejected _ => false end.

(** Settling the promise of request [r]: a promise settles once; the
    [try]/[catch] of [acquirePage] then reports to the circuit breaker. *)
Definition settle (cfg : Config) (now : Z) (r : nat) (o : Outcome) (s : PoolState) : PoolState :=
  if is_settled s r then s
  else
    let ok := outcome_ok o in
    mkPool (pool s) (requestQueue s) (tasks s)
      (updateCircuitBreaker cfg now ok (circuitBreaker s))
      (started s) ((r, o) :: settled s) (nextInst s) (nextReq s).

(** [cleanupExpiredInstances]: the sweep, taken as one step. *)
Definition expired (cfg : Config) (now : Z) (i : BrowserInstance) : bool :=
  (now - lastUsed i >? maxPageLoadTime cfg * 2)
  || (failureCount i >=? 3)
  || (memoryUsage i >? maxMemoryMB cfg * 1024 * 1024).

Definition cleanupExpiredInstances (cfg : Config) (now : Z) (p : list BrowserInstance) :=
  filter (fun i => negb (expired cfg now i)) p.

(** [this.pool.find(inst => !inst.page.isClosed() && inst.failureCount < 3)] *)
Definition find_live (p : list BrowserInstance) : option BrowserInstance :=
  find (fun i => negb (pageClosed i) && (failureCount i <? 3)) p.

(** [this.pool.reduce((oldest, current) => current.lastUsed < oldest.lastUsed ? current : oldest)];
    [None] is the TypeError of [reduce] on an empty array. *)
Definition oldest_instance (p : list BrowserInstance) : option BrowserInstance :=
  match p with
  | [] => None
  | i :: rest => Some (fold_left (fun o c => if lastUsed c <? lastUsed o then c else o) rest i)
  end.

Definition update_inst (id : nat) (f : BrowserInstance -> BrowserInstance) (p : list BrowserInstance) :=
  map (fun i => if Nat.eqb (inst_id i) id then f i else i) p.

Definition touch (now : Z) (i : BrowserInstance) : BrowserInstance :=
  mkInst (inst_id i) now (memoryUsage i) (failureCount i) (pageClosed i).

(** [const queueEntry = this.requestQueue.shift(); if (queueEntry) queueEntry.resolve(...)/reject(...)] *)
Definition shift_settle (cfg : Config) (now : Z) (o : Outcome) (s : PoolState) : PoolState :=
  match requestQueue s with
  | [] => s
  | (r, _) :: q => settle cfg now r o (set_queue s q)
  end.

Fixpoint remove_nth {A} (k : nat) (l : list A) : list A :=
  match k, l with
  | _, [] => []
  | O, _ :: t => t
  | S k', h :: t => h :: remove_nth k' t
  end.

Fixpoint set_nth {A} (k : nat) (x : A) (l : list A) : list A :=
  match k, l with
  | _, [] => []
  | O, _ :: t => x :: t
  | S k', h :: t => h :: set_nth k' x t
  end.

(** Resuming the [k]-th suspended [processQueue] at time [now]. *)
Definition resume (cfg : Config) (k : nat) (now : Z) (c : Completion) (s : PoolState)
    : option PoolState :=
  match nth_error (tasks s) k with
  | None => None
  | Some AfterCleanup =>
      (* cleanupExpiredInstances swallows every error: [c] is not looked at *)
        let p := cleanupExpiredInstances cfg now (pool s) in
        let s1 := set_pool s p in
        match find_live p with
        | Some i =>
            Some (shift_settle cfg now (Resolved (inst_id i))
                    (set_tasks (set_pool s1 (update_inst (inst_id i) (touch now) p))
                               (remove_nth k (tasks s))))
        | None =>
            if Z.of_nat (List.length p) <? maxConcurrentBrowsers cfg then
              Some (set_tasks s1 (set_nth k AfterCreate (tasks s)))
            else
              match oldest_instance p with
              | Some o => Some (set_tasks s1 (set_nth k (AfterRecycle (inst_id o)) (tasks s)))
              | None =>
                  Some (shift_settle cfg now (Rejected "Reduce of empty array with no initial value")
                          (set_tasks s1 (remove_nth k (tasks s))))
              end
        end
  | Some AfterCreate =>
      let s0 := set_tasks s (remove_nth k (tasks s)) in
      match c with
      | Done =>
          let i := mkInst (nextInst s) now 0 0 false in
          let s1 := mkPool (pool s0 ++ [i]) (requestQueue s0) (tasks s0) (circuitBreaker s0)
                      (started s0) (settled s0) (S (nextInst s0)) (nextReq s0) in
          Some (shift_settle cfg now (Resolved (inst_id i)) s1)
      | Threw m | Replaced m => Some (shift_settle cfg now (Rejected m) s0)
      end
  | Some (AfterRecycle id) =>
      let s0 := set_tasks s (remove_nth k (tasks s)) in
      match c with
      | Done =>
          let fresh i := mkInst (inst_id i) now 0 0 false in
          Some (shift_settle cfg now (Resolved id) (set_pool s0 (update_inst id fresh (pool s0))))
      | Replaced _ =>
          (* the catch of recycleBrowserInstance put a new instance in the
             slot; processQueue still hands out the old instance's page *)
          let i := mkInst (nextInst s0) now 0 0 false in
          let s1 := mkPool (map (fun j => if Nat.eqb (inst_id j) id then i else j) (pool s0))
                      (requestQueue s0) (tasks s0) (circuitBreaker s0)
                      (started s0) (settled s0) (S (nextInst s0)) (nextReq s0) in
          Some (shift_settle cfg now (Resolved id) s1)
      | Threw m => Some (shift_settle cfg now (Rejected m) s0)
      end
  end.

(** The two versions of the service. *)
Inductive Variant := Playwright | Patchright.

(** [acquirePage()] up to its first suspension: the fail-fast checks, or the
    push of the queue entry followed by the synchronous start of
    [processQueue] (which finds the queue non-empty and awaits the sweep).
    The request gets the identifier [nextReq]. *)
Definition acquirePage (cfg : Config) (now : Z) (s : PoolState) : PoolState :=
  let r := nextReq s in
  let s0 := mkPool (pool s) (requestQueue s) (tasks s) (circuitBreaker s)
              (started s) (settled s) (nextInst s) (S r) in
  if CBState_eqb (state (circuitBreaker s)) OPEN then
    settle cfg now r (Rejected "Circuit breaker is open, requests are blocked") s0
  else if Z.of_nat (List.length (requestQueue s)) >=? maxQueueSize cfg then
    settle cfg now r (Rejected "Request queue is full") s0
  else
    mkPool (pool s0) (requestQueue s0 ++ [(r, now)]) (tasks s0 ++ [AfterCleanup])
      (circuitBreaker s0) (started s0 ++ [(r, now)]) (settled s0) (nextInst s0) (nextReq s0).

Fixpoint remove_first (r : nat) (q : list (nat * Z)) : option (list (nat * Z)) :=
  match q with
  | [] => None
  | e :: q' => if Nat.eqb (fst e) r then Some q'
               else option_map (cons e) (remove_first r q')
  end.

(** The time at which request [r] entered the queue, if it did. *)
Definition start_time (s : PoolState) (r : nat) : option Z :=
  option_map snd (find (fun e => Nat.eqb (fst e) r) (started s)).

(** src/src/services/browser.ts: the [setTimeout] set in [acquirePage]:
    [indexOf] the entry; if present, [splice] it and reject. *)
Definition queueTimeout_playwright (cfg : Config) (r : nat) (now : Z) (s : PoolState) : PoolState :=
  match remove_first r (requestQueue s) with
  | Some q => settle cfg now r (Rejected "Request queue timeout") (set_queue s q)
  | None => s
  end.

(** src/unnamed/part_017: [withTimeout(..., queueTimeoutMs)] rejects the
    race with the McpError 'Operation timed out' unless the promise has
    already settled; the queue is not touched. *)
Definition queueTimeout_patchright (cfg : Config) (r : nat) (now : Z) (s : PoolState) : PoolState :=
  settle cfg now r (Rejected "Operation timed out") s.

Definition queueTimeout (v : Variant) :=
  match v with
  | Playwright => queueTimeout_playwright
  | Patchright => queueTimeout_patchright
  end.

Inductive Event :=
| EvAcquire (now : Z)                          (* a caller runs acquirePage() *)
| EvTimeout (r : nat) (now : Z)                (* the queue timer of request r fires *)
| EvResume (k : nat) (now : Z) (c : Completion)  (* the k-th suspended processQueue resumes *)
| EvSweep (now : Z)                            (* the gcInterval maintenance sweep *)
| EvMonitor (now : Z).                         (* the circuit-breaker monitoring tick *)

Definition step (v : Variant) (cfg : Config) (s : PoolState) (e : Event) : option PoolState :=
  match e with
  | EvAcquire now => Some (acquirePage cfg now s)
  | EvTimeout r now =>
      match start_time s r with
      | Some t => if t + queueTimeoutMs cfg <=? now
                  then Some (queueTimeout v cfg r now s) else None
      | None => None
      end
  | EvResume k now c => resume cfg k now c s
  | EvSweep now => Some (set_pool s (cleanupExpiredInstances cfg now (pool s)))
  | EvMonitor now => Some (set_cb s (circuitBreakerMonitorTick cfg now (circuitBreaker s)))
  end.

Fixpoint run (v : Variant) (cfg : Config) (s : PoolState) (es : list Event) : option PoolState :=
  match es with
  | [] => Some s
  | e :: es' => match step v cfg s e with
                | Some s' => run v cfg s' es'
                | None => None
                end
  end.

Inductive reachable (v : Variant) (cfg : Config) : PoolState -> Prop :=
| reach_init now : reachable v cfg (initialPool now)
| reach_step s e s' : reachable v cfg s -> step v cfg s e = Some s' -> reachable v cfg s'.

Definition event_time (e : Event) : Z :=
  match e with
  | EvAcquire t | EvTimeout _ t | EvResume _ t _ | EvSweep t | EvMonitor t => t
  end.

(** [n] failed acquisitions reported at time [now]. *)
Definition failure_run (n : nat) (now : Z) : list (Z * bool) := repeat (now, false) n.

(** The values of the first configuration in src/unnamed/part_021. *)
Definition config_part021 : Config := {|
  maxConcurrentBrowsers := 5;
  maxRetries := 3;
  initialRetryDelay := 1000;
  maxRetryDelay := 10000;
  minContentWords := 10;
  maxPageLoadTime := 45000;
  maxMemoryMB := 1024;
  criticalRequestThreshold := 15000;
  maxQueueSize := 100;
  queueTimeoutMs := 30000;
  failureThreshold := 5;
  resetTimeout := 30000;
  allowedProtocols := ["http:"; "https:"];
  maxUrlLength := 2048;
  CONSENT_REGIONS := CONSENT_REGIONS config_src
|}.

Definition queue_ids (s : PoolState) : list nat := map fst (requestQueue s).

(** The promise of request [r] was created and has not settled. *)
Definition pending (s : PoolState) (r : nat) : Prop :=
  In r (map fst (started s)) /\ is_settled s r = false.

(** Two acquisitions whose [processQueue] calls overlap across the await of
    [createBrowserInstance]: the first request times out while its browser
    is being launched, the second enters the emptied queue and launches a
    second browser. *)
Definition race_trace_src : list Event :=
  [EvAcquire 0; EvResume 0 1 Done; EvTimeout 0 15001; EvAcquire 15002;
   EvResume 1 15003 Done; EvResume 0 16000 Done; EvResume 0 17000 Done].

(** Six overlapping acquisitions with a queue of 100 and 5 browsers. *)
Definition race_trace_part021 : list Event :=
  map (fun t => EvAcquire (Z.of_nat t)) (seq 0 6)
  ++ map (fun k => EvResume k (Z.of_nat (10 + k)) Done) (seq 0 6)
  ++ repeat (EvResume 0 100 Done) 6.

(** A request times out while its browser is being launched. *)
Definition timeout_trace : list Event :=
  [EvAcquire 0; EvResume 0 1 Done; EvTimeout 0 15000].

(* ------------------------------------------------------------------ *)
(** * Strings *)

Definition lower_ascii (c : ascii) : ascii :=
  let n := nat_of_ascii c in
  if (65 <=? n)%nat && (n <=? 90)%nat then ascii_of_nat (n + 32) else c.

(** [toLowerCase], on the ASCII letters. *)
Fixpoint toLowerCase (s : string) : string :=
  match s with
  | EmptyString => EmptyString
  | String c s' => String (lower_ascii c) (toLowerCase s')
  end.

Fixpoint starts_with (p s : string) : bool :=
  match p, s with
  | EmptyString, _ => true
  | String a p', String b s' => Ascii.eqb a b && starts_with p' s'
  | String _ _, EmptyString => false
  end.

(** [s.includes(sub)] *)
Fixpoint includes (s sub : string) : bool :=
  starts_with sub s ||
  match s with
  | EmptyString => false
  | String _ s' => includes s' sub
  end.

Fixpoint nat_to_string_aux (fuel n : nat) (acc : string) : string :=
  match fuel with
  | O => acc
  | S f =>
      let acc' := String (ascii_of_nat (48 + Nat.modulo n 10)) acc in
      if (n <? 10)%nat then acc' else nat_to_string_aux f (Nat.div n 10) acc'
  end.

(** The decimal text of a number, as a template literal prints it. *)
Definition nat_to_string (n : nat) : string := nat_to_string_aux (S n) n "".

Definition Z_to_string (z : Z) : string :=
  if z <? 0 then "-" ++ nat_to_string (Z.to_nat (- z)) else nat_to_string (Z.to_nat z).

(** [s.split(sep)] for a one-character separator. *)
Fixpoint split_on (sep : ascii) (s : string) : list string :=
  match s with
  | EmptyString => [EmptyString]
  | String c s' =>
      match split_on sep s' with
      | [] => [] (* not reached *)
      | w :: ws => if Ascii.eqb c sep then EmptyString :: w :: ws else String c w :: ws
      end
  end.

Fixpoint join_with (sep : string) (ws : list string) : string :=
  match ws with
  | [] => ""
  | [w] => w
  | w :: ws' => w ++ sep ++ join_with sep ws'
  end.

(** [xs.slice(-2)] *)
Definition slice_last2 {A} (xs : list A) : list A := skipn (List.length xs - 2) xs.

Definition string_mem (x : string) (l : list string) : bool :=
  existsb (String.eqb x) l.

(* ------------------------------------------------------------------ *)
(** * Navigation ([safePageNavigation]) *)

(** What [new URL(url)] exposes to the code. *)
Record ParsedUrl := mkUrl { protocol : string; hostname : string }.

Record Cookie := mkCookie { c_name : string; c_value : string; c_domain : string; c_path : string }.

Definition consent_cookie (domain : string) : Cookie :=
  mkCookie "CONSENT" "YES+cb.20240107-11-p0.en+FX" domain "/".

(** Step 2 of [safePageNavigation]: the consent cookies for [domain]. *)
Definition consentCookies (cfg : Config) (domain : string) : list Cookie :=
  consent_cookie ".google.com" ::
  (if existsb (fun region => includes domain region) (CONSENT_REGIONS cfg)
      && negb (String.eqb domain "google.com")
   then [consent_cookie ("." ++ domain);
         consent_cookie ("." ++ join_with "." (slice_last2 (split_on "." domain)))]
   else []).

(** The result of [page.goto(url, ...)]. *)
Inductive GotoResult :=
| GotoThrows (msg : string)
| GotoNull
| GotoResponse (status : Z) (statusText : string).

Record ValidationResult := mkValidation { isValid : bool; error : option string }.

(** [new Error(validation.error).message] *)
Definition error_message (e : option string) : string :=
  match e with Some m => m | None => "" end.

(** Observable operations on the page. *)
Inductive NavEffect :=
| AddCookies (cs : list Cookie)
| Goto (url : string)
| WaitNetworkIdle
| ValidatePage
| WaitMs (ms : Z).

(** What the page and the network do during one call. Attempts are
    numbered from 0; [validation i j] is the [j]-th [validatePage] of
    attempt [i]; [jitter i] stands for [Math.random() * 1000] after the
    [i]-th failed attempt. *)
Record NavEnv := mkNavEnv {
  addCookies_error : option string;
  page_closed : nat -> bool;
  goto_result : nat -> GotoResult;
  validation : nat -> nat -> ValidationResult;
  final_url : nat -> string;
  jitter : nat -> Z;
  backoff_wait_error : nat -> option string
}.

Inductive NavResult := NavOk | NavErr (msg : string).

Definition bind_attempt (r : list NavEffect * option string)
    (k : unit -> list NavEffect * option string) : list NavEffect * option string :=
  match r with
  | (es, Some m) => (es, Some m)
  | (es, None) => let (es', r') := k tt in ((es ++ es')%list, r')
  end.

(** The redirect check that ends an attempt. *)
Definition redirect_check (cfg : Config) (parse : string -> option ParsedUrl)
    (url finalUrl : string) : option string :=
  if String.eqb finalUrl url then None
  else match parse finalUrl with
       | None => Some "Invalid URL"
       | Some p => if string_mem (protocol p) (allowedProtocols cfg) then None
                   else Some ("Redirect to unsupported protocol: " ++ protocol p)
       end.

(** The retry loop. [body i] is the [i]-th pass through the [try] block: its
    effects and, when it throws, its error message. [backoff i d] is the
    sleep after the [i]-th failure ([page.waitForTimeout] in browser.ts,
    [setTimeout] in part_017) and the error it may raise. The [fuel] is
    [maxRetries]: the [while] test fails once [attempts] reaches it. *)
Fixpoint nav_loop (cfg : Config) (body : nat -> list NavEffect * option string)
    (backoff : nat -> Z -> list NavEffect * option string)
    (jit : nat -> Z) (fuel attempts : nat) (delay : Z) : list NavEffect * NavResult :=
  match fuel with
  | O => ([], NavOk)
  | S fuel' =>
      if Z.of_nat attempts <? maxRetries cfg then
        match body attempts with
        | (es, None) => (es, NavOk)
        | (es, Some msg) =>
            let attempts' := S attempts in
            if Z.of_nat attempts' >=? maxRetries cfg then
              (es, NavErr ("Navigation failed after " ++ nat_to_string attempts' ++ " attempts: " ++ msg))
            else
              let delay' := Z.min (delay * 2 + jit attempts) (maxRetryDelay cfg) in
              match backoff attempts delay' with
              | (ws, Some e) => ((es ++ ws)%list, NavErr e)
              | (ws, None) =>
                  let (es', r) := nav_loop cfg body backoff jit fuel' attempts' delay' in
                  ((es ++ ws ++ es')%list, r)
              end
        end
      else ([], NavOk)
  end.

(** Step 1, shared by both versions. *)
Definition url_check (cfg : Config) (parse : string -> option ParsedUrl) (url : string)
    : ParsedUrl + string :=
  match parse url with
  | None => inr "Invalid URL"
  | Some p =>
      if negb (string_mem (protocol p) (allowedProtocols cfg)) then
        inr ("Unsupported protocol: " ++ protocol p)
      else if Z.of_nat (String.length url) >? maxUrlLength cfg then
        inr "URL exceeds maximum length"
      else inl p
  end.

Module Playwright.

(** One pass through the [try] block of the retry loop of
    src/src/services/browser.ts (attempt [i]). *)
Definition attempt (cfg : Config) (parse : string -> option ParsedUrl) (env : NavEnv)
    (url : string) (i : nat) : list NavEffect * option string :=
  match goto_result env i with
  | GotoThrows m => ([Goto url], Some m)
  | GotoNull => ([Goto url], Some "Navigation failed: no response received")
  | GotoResponse st txt =>
      if st >=? 400 then ([Goto url], Some ("HTTP " ++ Z_to_string st ++ ": " ++ txt))
      else
        let v := validation env i 0 in
        ([Goto url; WaitNetworkIdle; ValidatePage],
         if isValid v then redirect_check cfg parse url (final_url env i)
         else Some (error_message (error v)))
  end.

(** [await page.waitForTimeout(delay)], inside the [catch] block. *)
Definition backoff (env : NavEnv) (i : nat) (d : Z) : list NavEffect * option string :=
  ([WaitMs d], backoff_wait_error env i).

Definition safePageNavigation (cfg : Config) (parse : string -> option ParsedUrl)
    (env : NavEnv) (url : string) : list NavEffect * NavResult :=
  match url_check cfg parse url with
  | inr m => ([], NavErr m)
  | inl p =>
      let cs := consentCookies cfg (hostname p) in
      match addCookies_error env with
      | Some m => ([AddCookies cs], NavErr m)
      | None =>
          let (es, r) := nav_loop cfg (attempt cfg parse env url) (backoff env) (jitter env)
                           (Z.to_nat (maxRetries cfg)) 0 (initialRetryDelay cfg) in
          (AddCookies cs :: es, r)
      end
  end.

End Playwright.

Module Patchright.

(** The validation loop [for (let i = 0; i < 3; i++)] of attempt [i]:
    [inl v] is the last result when no check threw, [inr m] a throw. *)
Fixpoint validation_loop (env : NavEnv) (i j fuel : nat)
    : list NavEffect * (ValidationResult + string) :=
  match fuel with
  | O => ([], inl (validation env i (j - 1)))
  | S fuel' =>
      let v := validation env i j in
      if isValid v then ([ValidatePage], inl v)
      else if negb (includes (error_message (error v)) "Bot protection") then
        match fuel' with
        | O => ([ValidatePage; WaitMs 1000], inl v)
        | _ => let (es, r) := validation_loop env i (S j) fuel' in
               ((ValidatePage :: WaitMs 1000 :: es)%list, r)
        end
      else ([ValidatePage], inr (error_message (error v)))
  end.

(** One pass through the [try] block of the retry loop of
    src/unnamed/part_017 (attempt [i]). [isClosed()] is taken to keep one
    value during an attempt; the [page.waitForTimeout(2000)] calls resolve. *)
Definition attempt (cfg : Config) (parse : string -> option ParsedUrl) (env : NavEnv)
    (url : string) (i : nat) : list NavEffect * option string :=
  if page_closed env i then ([], Some "Page was closed during navigation")
  else
  match goto_result env i with
  | GotoThrows m => ([Goto url], Some m)
  | GotoNull => ([Goto url; WaitMs 2000], Some "Navigation failed: no response received")
  | GotoResponse st txt =>
      if st >=? 400 then ([Goto url; WaitMs 2000], Some ("HTTP " ++ Z_to_string st ++ ": " ++ txt))
      else
        let (es, r) := validation_loop env i 0 3 in
        ((Goto url :: WaitMs 2000 :: WaitMs 2000 :: es)%list,
         match r with
         | inr m => Some m
         | inl v =>
             if isValid v then redirect_check cfg parse url (final_url env i)
             else Some (match error v with
                        | Some m => if String.eqb m "" then "Page validation failed" else m
                        | None => "Page validation failed"
                        end)
         end)
  end.

(** [await new Promise(resolve => setTimeout(resolve, delay))]. *)
Definition backoff (i : nat) (d : Z) : list NavEffect * option string := ([WaitMs d], None).

Definition safePageNavigation (cfg : Config) (parse : string -> option ParsedUrl)
    (env : NavEnv) (url : string) : list NavEffect * NavResult :=
  match url_check cfg parse url with
  | inr m => ([], NavErr m)
  | inl p =>
      let cs := consentCookies cfg (hostname p) in
      if page_closed env 0 then ([], NavErr "Page was closed before navigation")
      else
      match addCookies_error env with
      | Some m => ([AddCookies cs], NavErr m)
      | None =>
          let (es, r) := nav_loop cfg (attempt cfg parse env url) backoff (jitter env)
                           (Z.to_nat (maxRetries cfg)) 0 (initialRetryDelay cfg) in
          (AddCookies cs :: es, r)
      end
  end.

End Patchright.

Definition is_goto (e : NavEffect) : bool :=
  match e with Goto _ => true | _ => false end.

(** The number of [page.goto] calls. *)
Definition goto_count (es : list NavEffect) : nat := List.length (filter is_goto es).

(** A small URL parser standing in for [new URL] in the examples: the
    scheme (letters, digits, '+', '-', '.' after a first letter) up to the
    first ':', lower-cased, and the host of an authority [//host]. *)
Definition scheme_char (c : ascii) : bool :=
  let n := nat_of_ascii c in
  ((65 <=? n)%nat && (n <=? 90)%nat) || ((97 <=? n)%nat && (n <=? 122)%nat)
  || ((48 <=? n)%nat && (n <=? 57)%nat) || (n =? 43)%nat || (n =? 45)%nat || (n =? 46)%nat.

Fixpoint take_until (stop : ascii -> bool) (s : string) : string * string :=
  match s with
  | EmptyString => (EmptyString, EmptyString)
  | String c s' => if stop c then (EmptyString, s)
                   else let (a, b) := take_until stop s' in (String c a, b)
  end.

Definition simple_parse_url (s : string) : option ParsedUrl :=
  let (scheme, rest) := take_until (fun c => Ascii.eqb c ":") s in
  match scheme, rest with
  | String c0 _, String _ after =>
      if scheme_char c0 && negb ((48 <=? nat_of_ascii c0)%nat && (nat_of_ascii c0 <=? 57)%nat)
         && forallb scheme_char (list_ascii_of_string scheme) then
        let host :=
          match after with
          | String "/" (String "/" auth) =>
              let (h, _) := take_until (fun c => Ascii.eqb c "/" || Ascii.eqb c "?" || Ascii.eqb c "#") auth in
              fst (take_until (fun c => Ascii.eqb c ":") h)
          | _ => ""
          end in
        Some (mkUrl (toLowerCase scheme ++ ":") (toLowerCase host))
      else None
  | _, _ => None
  end.

(** A page answering every request with HTTP 500. *)
Definition env_http500 : NavEnv := {|
  addCookies_error := None;
  page_closed := fun _ => false;
  goto_result := fun _ => GotoResponse 500 "Internal Server Error";
  validation := fun _ _ => mkValidation true None;
  final_url := fun _ => "http://example.com";
  jitter := fun _ => 500;
  backoff_wait_error := fun _ => None
|}.


(** The message an attempt throws ([""] when it does not throw). *)
Definition attempt_error (r : list NavEffect * option string) : string :=
  match snd r with Some m => m | None => "" end.

(* ------------------------------------------------------------------ *)
(** * Page validation ([validatePage]) *)

(** What the page exposes to [validatePage]. [matched_selectors] are the
    selectors for which [document.querySelector] finds an element;
    [loadTime] is [performance.now()] when the script runs;
    [suspiciousChanges] is the count part_017's mutation observer reaches;
    [evaluate_error] and [dynamic_error] are the messages of a throwing
    first and second [page.evaluate]. *)
Record PageSnapshot := mkPage {
  isClosed : bool;
  evaluate_error : option string;
  dynamic_error : option string;
  matched_selectors : list string;
  script_srcs : list string;
  doc_title : string;
  body_innerText : string;
  loadTime : Z;
  suspiciousChanges : Z;
  page_url : string
}.

(** JS [\s] on the characters the examples use. *)
Definition is_space (c : ascii) : bool :=
  let n := nat_of_ascii c in
  ((9 <=? n)%nat && (n <=? 13)%nat) || (n =? 32)%nat || (n =? 160)%nat.

(** The number of maximal runs of non-space characters. *)
Fixpoint count_runs (in_word : bool) (s : string) : nat :=
  match s with
  | EmptyString => 0
  | String c s' =>
      if is_space c then count_runs false s'
      else if in_word then count_runs true s' else S (count_runs true s')
  end.

(** [text.trim().split(/\s+/).length]: an empty or blank text gives [[""]]. *)
Definition word_count (text : string) : Z :=
  let n := count_runs false text in
  if (n =? 0)%nat then 1 else Z.of_nat n.

Definition botProtectionSelectors : list string :=
  ["#challenge-running"; "#cf-challenge-running"; "#px-captcha";
   "#ddos-protection"; "#waf-challenge-html"; ".ray-id"; "#captcha-box";
   ".g-recaptcha"; "#h-captcha"; ".turnstile-wrapper";
   "[class*=" ++ String (ascii_of_nat 34) "captcha" ++ String (ascii_of_nat 34) "]";
   "[id*=" ++ String (ascii_of_nat 34) "captcha" ++ String (ascii_of_nat 34) "]"].

Definition selector_present (pg : PageSnapshot) : bool :=
  existsb (fun sel => string_mem sel (matched_selectors pg)) botProtectionSelectors.

Definition bad_url (u : string) : bool := includes u "data:" || includes u "javascript:".

Definition dq : string := String (ascii_of_nat 34) EmptyString.

Module PlaywrightValidation.

Definition suspiciousTitlePhrases : list string :=
  ["security check"; "ddos protection"; "please wait"; "just a moment";
   "attention required"; "access denied"; "verify human"; "bot protection";
   "captcha required"; "verification required"; "checking your browser";
   "javascript required"; "cookies required"].

Definition errorIndicators : list string :=
  ["404 not found"; "page not found"; "access denied"; "forbidden";
   "error occurred"; "service unavailable"].

Definition suspiciousTitle (pg : PageSnapshot) : bool :=
  existsb (includes (toLowerCase (doc_title pg))) suspiciousTitlePhrases.

Definition hasErrorContent (pg : PageSnapshot) : bool :=
  existsb (includes (toLowerCase (body_innerText pg))) errorIndicators.

(** [validatePage] of src/src/services/browser.ts. *)
Definition validatePage (cfg : Config) (pg : PageSnapshot) : ValidationResult :=
  match evaluate_error pg with
  | Some m => mkValidation false (Some ("Page validation failed: " ++ m))
  | None =>
  if selector_present pg then mkValidation false (Some "Bot protection or CAPTCHA detected")
  else if suspiciousTitle pg then
    mkValidation false (Some ("Suspicious page title detected: " ++ dq ++ doc_title pg ++ dq))
  else if word_count (body_innerText pg) <? minContentWords cfg then
    mkValidation false (Some ("Page contains insufficient content ("
                              ++ Z_to_string (word_count (body_innerText pg)) ++ " words)"))
  else if hasErrorContent pg then
    mkValidation false (Some "Page contains error messages or unavailable content")
  else if loadTime pg >? criticalRequestThreshold cfg then
    mkValidation false (Some "Page load time exceeded critical threshold")
  else if bad_url (page_url pg) then
    mkValidation false (Some "Potentially malicious URL scheme detected")
  else mkValidation true None
  end.

End PlaywrightValidation.

Module PatchrightValidation.

Definition botScripts : list string :=
  ["hcaptcha"; "recaptcha"; "turnstile"; "cloudflare"; "perimeterx";
   "datadome"; "imperva"; "akamai"].

Definition suspiciousPhrases : list string :=
  ["security check"; "ddos protection"; "please wait"; "just a moment";
   "attention required"; "access denied"; "verify human"; "bot protection";
   "captcha required"].

Definition hasProtection (pg : PageSnapshot) : bool :=
  selector_present pg
  || existsb (fun script =>
        existsb (fun src => negb (String.eqb src "") && includes (toLowerCase src) script)
                (script_srcs pg)) botScripts.

Definition hasSuspiciousTitle (pg : PageSnapshot) : bool :=
  existsb (includes (toLowerCase (doc_title pg))) suspiciousPhrases.

(** [validatePage] of src/unnamed/part_017. *)
Definition validatePage (cfg : Config) (pg : PageSnapshot) : ValidationResult :=
  if isClosed pg then mkValidation false (Some "Page was closed during validation")
  else
  match evaluate_error pg with
  | Some m => mkValidation false (Some ("Page validation failed: " ++ m))
  | None =>
  if hasProtection pg then mkValidation false (Some "Bot protection or CAPTCHA detected")
  else
  match dynamic_error pg with
  | Some m => mkValidation false (Some ("Page validation failed: " ++ m))
  | None =>
  if hasSuspiciousTitle pg then mkValidation false (Some "Suspicious page title detected")
  else if word_count (body_innerText pg) <? minContentWords cfg then
    mkValidation false (Some ("Insufficient content ("
                              ++ Z_to_string (word_count (body_innerText pg)) ++ " words)"))
  else if suspiciousChanges pg >? 5 then
    mkValidation false (Some "Suspicious page behavior detected")
  else if bad_url (page_url pg) then
    mkValidation false (Some "Potentially malicious URL scheme detected")
  else mkValidation true None
  end
  end.

End PatchrightValidation.



(* ------------------------------------------------------------------ *)
(** * Consent dismissal ([dismissGoogleConsent]) *)

(** Operations on the page and its context. [CQuery] is a [page.$] lookup,
    which reads the page; [CClickAccept] stands for the clicks on the
    accept button, [CWaitDialogGone] for [page.waitForFunction]. *)
Inductive ConsentEffect :=
| CAddCookies (cs : list Cookie)
| CInjectScript
| CQuery
| CClickAccept
| CWaitDialogGone
| CWaitMs (ms : Z).

(** Whether an operation changes or waits on the page or its context. *)
Definition mutating (e : ConsentEffect) : bool :=
  match e with CQuery => false | _ => true end.

(** The page as [dismissGoogleConsent] sees it. [query k] is the result of
    the [k]-th [page.$] lookup: [Some found], or [None] when it throws.
    [addCookies_fails] and [inject_fails] say whether
    [context().addCookies] and [page.evaluate] throw. The clicks, the
    [waitForFunction] and the sleeps have their errors caught or resolve. *)
Record ConsentEnv := mkConsentEnv {
  cons_url : string;
  cons_closed : bool;
  query : nat -> option bool;
  addCookies_fails : bool;
  inject_fails : bool
}.

Module PlaywrightConsent.

(** The [for (let attempt = 0; attempt < 3; attempt++)] loop; attempt [a]
    makes lookups [2a] and [2a+1]. *)
Fixpoint consent_loop (q : nat -> option bool) (a fuel : nat) : list ConsentEffect :=
  match fuel with
  | O => []
  | S f =>
      let pause := if (a <? 2)%nat then [CWaitMs 1000] else [] in
      match q (2 * a)%nat with
      | None => (CQuery :: pause ++ consent_loop q (S a) f)%list
      | Some false => [CQuery]
      | Some true =>
          (CQuery :: CClickAccept :: CWaitDialogGone :: CWaitMs 1000 ::
           match q (2 * a + 1)%nat with
           | Some false => [CQuery]
           | _ => CQuery :: pause ++ consent_loop q (S a) f
           end)%list
      end
  end.

(** [dismissGoogleConsent] of src/src/services/browser.ts; its outer
    [catch] swallows every error, so it never throws. *)
Definition dismissGoogleConsent (cfg : Config) (env : ConsentEnv) : list ConsentEffect :=
  if existsb (fun domain => includes (cons_url env) domain) (CONSENT_REGIONS cfg)
  then CWaitMs 2000 :: consent_loop (query env) 0 3
  else [].

End PlaywrightConsent.

Module PatchrightConsent.

Definition consentCookies : list Cookie :=
  [mkCookie "CONSENT" "YES+cb.20240107-11-p0.en+FX" ".google.com" "/";
   mkCookie "SOCS" "CAESEwgDEgk0NzI4MDg4NDIYC_qMAQ" ".google.com" "/"].

(** [dismissGoogleConsent] of src/unnamed/part_017; its outer [catch]
    swallows every error, so it never throws. *)
Definition dismissGoogleConsent (env : ConsentEnv) : list ConsentEffect :=
  if cons_closed env then []
  else
    CAddCookies consentCookies ::
    (if addCookies_fails env then []
     else CInjectScript ::
          (if inject_fails env then []
           else CQuery :: match query env 0 with
                          | Some true => [CClickAccept; CWaitDialogGone]
                          | _ => []
                          end)).

End PatchrightConsent.

(** An open page on a domain outside the consent regions, without dialog. *)
Definition example_consent_env : ConsentEnv := {|
  cons_url := "https://example.com/";
  cons_closed := false;
  query := fun _ => Some false;
  addCookies_fails := false;
  inject_fails := false
|}.

(* ------------------------------------------------------------------ *)
(** * Instance recycling ([recycleBrowserInstance]) *)

Module Recycle.

(** A browser context: its pages ([(id, open)]), cookies and granted
    permissions, whether it and its browser are alive, and the id the next
    [newPage] gets. *)
Record BrowserContext := mkContext {
  pages : list (nat * bool);
  cookies : list Cookie;
  permissions : list string;
  context_open : bool;
  browser_open : bool;
  next_page : nat
}.

Record BrowserInstance := mkInstance {
  context : BrowserContext;
  page : nat;
  lastUsed : Z;
  failureCount : Z;
  memoryUsage : Z
}.

(** Which awaited calls throw. *)
Record RecycleEnv := mkRecycleEnv {
  close_fails : bool;
  clearCookies_fails : bool;
  clearPermissions_fails : bool;
  newPage_fails : bool
}.

Definition no_failures : RecycleEnv := mkRecycleEnv false false false false.

(** [Recycled i]: the [try] block completed with the instance [i];
    [FellBack]: a call threw and the [catch] block replaced the instance
    by a new one (not modelled further). *)
Inductive RecycleResult := Recycled (i : BrowserInstance) | FellBack.

Definition page_open (c : BrowserContext) (id : nat) : bool :=
  existsb (fun p => (fst p =? id)%nat && snd p) (pages c).

Definition set_pages (c : BrowserContext) (ps : list (nat * bool)) : BrowserContext :=
  mkContext ps (cookies c) (permissions c) (context_open c) (browser_open c) (next_page c).

Definition close_page (c : BrowserContext) (id : nat) : BrowserContext :=
  set_pages c (map (fun p => if (fst p =? id)%nat then (fst p, false) else p) (pages c)).

Definition clearCookies (c : BrowserContext) : BrowserContext :=
  mkContext (pages c) [] (permissions c) (context_open c) (browser_open c) (next_page c).

Definition clearPermissions (c : BrowserContext) : BrowserContext :=
  mkContext (pages c) (cookies c) [] (context_open c) (browser_open c) (next_page c).

Definition newPage (c : BrowserContext) : nat * BrowserContext :=
  (next_page c,
   mkContext (pages c ++ [(next_page c, true)]) (cookies c) (permissions c)
             (context_open c) (browser_open c) (S (next_page c))).

(** The end of the [try] block, shared by both versions. *)
Definition finish (now : Z) (c : BrowserContext) : BrowserInstance :=
  let (p, c') := newPage c in mkInstance c' p now 0 0.

(** [recycleBrowserInstance] of src/src/services/browser.ts: the pages of
    [context.pages()] other than [instance.page] are closed (their errors
    caught), then a new page replaces [instance.page]. *)
Module Playwright.

Definition recycleBrowserInstance (env : RecycleEnv) (now : Z) (inst : BrowserInstance)
    : RecycleResult :=
  if clearCookies_fails env then FellBack else
  let c1 := clearCookies (context inst) in
  if clearPermissions_fails env then FellBack else
  let c2 := clearPermissions c1 in
  let c3 := set_pages c2 (map (fun p => if (fst p =? page inst)%nat then p else (fst p, false))
                              (pages c2)) in
  if newPage_fails env then FellBack else Recycled (finish now c3).

End Playwright.

(** [recycleBrowserInstance] of src/unnamed/part_017. *)
Module Patchright.

Definition recycleBrowserInstance (env : RecycleEnv) (now : Z) (inst : BrowserInstance)
    : RecycleResult :=
  let c0 := context inst in
  match (if page_open c0 (page inst)
         then (if close_fails env then None else Some (close_page c0 (page inst)))
         else Some c0) with
  | None => FellBack
  | Some c1 =>
      if clearCookies_fails env then FellBack else
      let c2 := clearCookies c1 in
      if clearPermissions_fails env then FellBack else
      let c3 := clearPermissions c2 in
      if newPage_fails env then FellBack else Recycled (finish now c3)
  end.

End Patchright.

(** What the specification asks of a successful recycle of [old] into
    [i] at time [now]. *)
Definition recycled_as_specified (now : Z) (old i : BrowserInstance) : Prop :=
  page_open (context i) (page old) = false
  /\ cookies (context i) = [] /\ permissions (context i) = []
  /\ page i = next_page (context old) /\ page_open (context i) (page i) = true
  /\ lastUsed i = now /\ failureCount i = 0 /\ memoryUsage i = 0
  /\ context_open (context i) = context_open (context old)
  /\ browser_open (context i) = browser_open (context old).

(** An instance whose main page 0 is open, with a cookie and a permission. *)
Definition sample_instance : BrowserInstance :=
  mkInstance (mkContext [(0%nat, true)] [consent_cookie ".google.com"] ["geolocation"]
                        true true 1)
             0 100 3 2048.

End Recycle.

(** A pool whose breaker is OPEN since t=100 after 2 failures. *)
Definition open_pool : PoolState := mkPool [] [] [] (mkCB OPEN 2 100 0) [] [] 0 0.

(* ------------------------------------------------------------------ *)
(** * Helpers for the properties of the pool and the navigation *)

(** [l] is [l'] with some elements left out, in the same order. *)
Inductive subseq {A : Type} : list A -> list A -> Prop :=
| subseq_nil : subseq [] []
| subseq_keep x l l' : subseq l l' -> subseq (x :: l) (x :: l')
| subseq_drop x l l' : subseq l l' -> subseq l (x :: l').

(** The shipped configuration with [maxRetries] set to 0. *)
Definition config_no_retries : Config := {|
  maxConcurrentBrowsers := maxConcurrentBrowsers config_src;
  maxRetries := 0;
  initialRetryDelay := initialRetryDelay config_src;
  maxRetryDelay := maxRetryDelay config_src;
  minContentWords := minContentWords config_src;
  maxPageLoadTime := maxPageLoadTime config_src;
  maxMemoryMB := maxMemoryMB config_src;
  criticalRequestThreshold := criticalRequestThreshold config_src;
  maxQueueSize := maxQueueSize config_src;
  queueTimeoutMs := queueTimeoutMs config_src;
  failureThreshold := failureThreshold config_src;
  resetTimeout := resetTimeout config_src;
  allowedProtocols := allowedProtocols config_src;
  maxUrlLength := maxUrlLength config_src;
  CONSENT_REGIONS := CONSENT_REGIONS config_src
|}.

(** A pool whose only instance 0 is being recycled for request 0. *)
Definition recycling_pool : PoolState :=
  mkPool [mkInst 0 100 0 0 false] [(0%nat, 200)] [AfterRecycle 0]
         (initialCircuitBreaker 0) [(0%nat, 200)] [] 1 1.

(** The number of [e] in [es] satisfying [p]. *)
Definition count_of {A : Type} (p : A -> bool) (es : list A) : nat := List.length (filter p es).

Definition is_validate (e : NavEffect) : bool :=
  match e with ValidatePage => true | _ => false end.

Definition is_query (e : ConsentEffect) : bool :=
  match e with CQuery => true | _ => false end.

(** A page whose first [page.goto] gets HTTP 503 and whose later ones
    load a valid page that stays at the requested URL. *)
Definition env_recovers : NavEnv := {|
  addCookies_error := None;
  page_closed := fun _ => false;
  goto_result := fun i => if (i =? 0)%nat then GotoResponse 503 "Service Unavailable"
                          else GotoResponse 200 "OK";
  validation := fun _ _ => mkValidation true None;
  final_url := fun _ => "http://example.com";
  jitter := fun _ => 500;
  backoff_wait_error := fun _ => None
|}.

(** A page that loads with HTTP 200 but whose content only suffices at the
    second check of an attempt. *)
Definition env_revalidates : NavEnv := {|
  addCookies_error := None;
  page_closed := fun _ => false;
  goto_result := fun _ => GotoResponse 200 "OK";
  validation := fun _ j => if (j =? 0)%nat
                           then mkValidation false (Some "Insufficient content (12 words)")
                           else mkValidation true None;
  final_url := fun _ => "http://example.com";
  jitter := fun _ => 500;
  backoff_wait_error := fun _ => None
|}.

(* ------------------------------------------------------------------ *)
(** * Performance monitoring ([startPerformanceMonitoring]) *)

(** What [instance.page.evaluate(...)] gives for an instance: it throws, or
    reports [usedJSHeapSize] (0 when absent). *)
Inductive MemProbe := ProbeThrows | ProbeMemory (m : Z).

Definition memory_limit (cfg : Config) : Z := maxMemoryMB cfg * 1024 * 1024.

(** One tick of the interval, the [for (const instance of this.pool)]
    loop taken as one step. [probe id] is the evaluation for instance
    [id]; [recycle id] is how [recycleBrowserInstance] ends: [Done] (a new
    page, counters reset), [Replaced] (its [catch] put a new instance,
    numbered [next], in the slot) or [Threw] (creating that instance
    failed). *)
Fixpoint performanceTick_playwright (cfg : Config) (now : Z) (probe : nat -> MemProbe)
    (recycle : nat -> Completion) (next : nat) (p : list BrowserInstance)
    : list BrowserInstance * nat :=
  match p with
  | [] => ([], next)
  | i :: rest =>
      let (i', next') :=
        match probe (inst_id i) with
        | ProbeThrows => (i, next)
        | ProbeMemory m =>
            let i1 := mkInst (inst_id i) (lastUsed i) m (failureCount i) (pageClosed i) in
            if m >? memory_limit cfg then
              match recycle (inst_id i) with
              | Done => (mkInst (inst_id i) now 0 0 false, next)
              | Replaced _ => (mkInst next now 0 0 false, S next)
              | Threw _ => (i1, next)
              end
            else (i1, next)
        end in
      let (rest', next'') := performanceTick_playwright cfg now probe recycle next' rest in
      (i' :: rest', next'')
  end.

(** part_017: closed pages are skipped, and an error of the evaluation or
    of the recycling increments the instance's [failureCount]. *)
Fixpoint performanceTick_patchright (cfg : Config) (now : Z) (probe : nat -> MemProbe)
    (recycle : nat -> Completion) (next : nat) (p : list BrowserInstance)
    : list BrowserInstance * nat :=
  match p with
  | [] => ([], next)
  | i :: rest =>
      let (i', next') :=
        if pageClosed i then (i, next)
        else
        match probe (inst_id i) with
        | ProbeThrows =>
            (mkInst (inst_id i) (lastUsed i) (memoryUsage i) (failureCount i + 1) (pageClosed i), next)
        | ProbeMemory m =>
            let i1 := mkInst (inst_id i) (lastUsed i) m (failureCount i) (pageClosed i) in
            if m >? memory_limit cfg then
              match recycle (inst_id i) with
              | Done => (mkInst (inst_id i) now 0 0 false, next)
              | Replaced _ => (mkInst next now 0 0 false, S next)
              | Threw _ => (mkInst (inst_id i) (lastUsed i) m (failureCount i + 1) (pageClosed i), next)
              end
            else (i1, next)
        end in
      let (rest', next'') := performanceTick_patchright cfg now probe recycle next' rest in
      (i' :: rest', next'')
  end.

(** An instance whose page no longer answers [page.evaluate]. *)
Definition stuck_instance : BrowserInstance := mkInst 0 1000 4096 2 false.

(* ================================================================== *)
(** * Circuit breaker: properties *)

Lemma CBState_eqb_spec (a b : CBState) : CBState_eqb a b = true <-> a = b.
Proof. destruct a, b; simpl; split; congruence. Qed.

Lemma update_failure_state cfg now cb :
  state (updateCircuitBreaker cfg now false cb) =
    (if failures cb + 1 >=? failureThreshold cfg then OPEN else state cb).
Proof. reflexivity. Qed.

Lemma update_not_half_open cfg now ok cb :
  state cb <> HALF_OPEN -> state (updateCircuitBreaker cfg now ok cb) <> HALF_OPEN.
Proof.
  intros H F. unfold updateCircuitBreaker in F. destruct ok.
  - destruct (state cb) eqn:E; simpl in F; rewrite ?E in F; discriminate F || contradiction.
  - destruct (failures cb + 1 >=? failureThreshold cfg); simpl in F; [discriminate F | contradiction].
Qed.

Lemma update_keeps_open cfg now ok cb :
  state cb = OPEN -> state (updateCircuitBreaker cfg now ok cb) = OPEN.
Proof.
  intros H. destruct ok; unfold updateCircuitBreaker; simpl; rewrite H; simpl; auto.
  destruct (failures cb + 1 >=? failureThreshold cfg); auto.
Qed.

Lemma reportOutcomes_keeps_open cfg outs cb :
  state cb = OPEN -> state (reportOutcomes cfg outs cb) = OPEN.
Proof.
  revert cb; induction outs as [|[t ok] rest IH]; intros cb H; simpl; auto.
  apply IH, update_keeps_open, H.
Qed.

Lemma count_failures_cons t ok outs :
  count_failures ((t, ok) :: outs) = (if ok then 0 else 1) + count_failures outs.
Proof.
  unfold count_failures; destruct ok; cbn [filter negb snd List.length]; [lia|].
  rewrite Nat2Z.inj_succ; lia.
Qed.

Lemma count_failures_nonneg outs : 0 <= count_failures outs.
Proof. unfold count_failures; lia. Qed.

(** Outside HALF_OPEN the counter counts every failure, successes apart,
    and the breaker is OPEN as soon as it has reached the threshold. *)
Lemma reportOutcomes_counts cfg outs cb :
  state cb <> HALF_OPEN ->
  failures (reportOutcomes cfg outs cb) = failures cb + count_failures outs
  /\ (0 < count_failures outs -> failureThreshold cfg <= failures cb + count_failures outs ->
      state (reportOutcomes cfg outs cb) = OPEN).
Proof.
  revert cb; induction outs as [|[t ok] rest IH]; intros cb Hst.
  - unfold count_failures; simpl; split; [lia | intros; lia].
  - simpl reportOutcomes. rewrite count_failures_cons.
    destruct (IH (updateCircuitBreaker cfg t ok cb) (update_not_half_open cfg t ok cb Hst))
      as [Hf Ho].
    destruct ok.
    + assert (E : failures (updateCircuitBreaker cfg t true cb) = failures cb).
      { unfold updateCircuitBreaker; simpl.
        destruct (CBState_eqb (state cb) HALF_OPEN) eqn:E; simpl; auto.
        apply CBState_eqb_spec in E; contradiction. }
      rewrite E in Hf, Ho. split; [lia|]. intros Hc Ht. apply Ho; lia.
    + assert (E : failures (updateCircuitBreaker cfg t false cb) = failures cb + 1) by reflexivity.
      rewrite E in Hf, Ho. split; [lia|]. intros _ Ht.
      pose proof (count_failures_nonneg rest) as Hn.
      destruct (Z.eq_dec (count_failures rest) 0) as [Z0|NZ].
      * apply reportOutcomes_keeps_open. rewrite update_failure_state.
        replace (failures cb + 1 >=? failureThreshold cfg) with true; auto.
        symmetry; apply Z.geb_le; lia.
      * apply Ho; lia.
Qed.

Lemma failure_run_count n now : count_failures (failure_run n now) = Z.of_nat n.
Proof.
  induction n as [|n IH]; [reflexivity|].
  unfold failure_run in *; simpl repeat; rewrite count_failures_cons, IH; lia.
Qed.

Lemma failure_run_half_open cfg n now cb :
  state cb = HALF_OPEN ->
  state (reportOutcomes cfg (failure_run (S n) now) cb) =
    (if failures cb + Z.of_nat (S n) >=? failureThreshold cfg then OPEN else HALF_OPEN)
  /\ failures (reportOutcomes cfg (failure_run (S n) now) cb) = failures cb + Z.of_nat (S n).
Proof.
  revert cb; induction n as [|n IH]; intros cb H.
  - simpl. rewrite H. split; [|lia]. replace (failures cb + Z.of_nat 1) with (failures cb + 1) by lia.
    reflexivity.
  - change (reportOutcomes cfg (failure_run (S (S n)) now) cb)
      with (reportOutcomes cfg (failure_run (S n) now) (updateCircuitBreaker cfg now false cb)).
    set (cb' := updateCircuitBreaker cfg now false cb).
    assert (Fc : failures cb' = failures cb + 1) by reflexivity.
    destruct (failures cb + 1 >=? failureThreshold cfg) eqn:G.
    + assert (Hs : state cb' = OPEN) by (unfold cb'; rewrite update_failure_state, G; auto).
      pose proof (reportOutcomes_keeps_open cfg (failure_run (S n) now) cb' Hs) as Ho.
      destruct (reportOutcomes_counts cfg (failure_run (S n) now) cb') as [Hf _]; [congruence|].
      rewrite failure_run_count in Hf. rewrite Ho, Hf, Fc.
      apply Z.geb_le in G. split; [|lia].
      replace (failures cb + Z.of_nat (S (S n)) >=? failureThreshold cfg) with true; auto.
      symmetry; apply Z.geb_le; lia.
    + assert (Hs : state cb' = HALF_OPEN) by (unfold cb'; rewrite update_failure_state, G; auto).
      destruct (IH cb' Hs) as [A B]. rewrite A, B, Fc. split; [|lia].
      replace (failures cb + 1 + Z.of_nat (S n)) with (failures cb + Z.of_nat (S (S n))) by lia.
      reflexivity.
Qed.

(* ================================================================== *)
(** * Pool steps and the circuit breaker *)

Definition settles_one (cfg : Config) (now : Z) (s s' : PoolState) : Prop :=
  (settled s' = settled s /\ circuitBreaker s' = circuitBreaker s)
  \/ exists r o, settled s' = (r, o) :: settled s
       /\ circuitBreaker s' = updateCircuitBreaker cfg now (outcome_ok o) (circuitBreaker s).

Lemma settle_settles_one cfg now r o s0 s :
  settled s0 = settled s -> circuitBreaker s0 = circuitBreaker s ->
  settles_one cfg now s (settle cfg now r o s0).
Proof.
  intros Hs Hc. unfold settle. destruct (is_settled s0 r).
  - left; auto.
  - right. exists r, o. simpl. rewrite Hs, Hc. auto.
Qed.

Lemma shift_settle_settles_one cfg now o s0 s :
  settled s0 = settled s -> circuitBreaker s0 = circuitBreaker s ->
  settles_one cfg now s (shift_settle cfg now o s0).
Proof.
  intros Hs Hc. unfold shift_settle. destruct (requestQueue s0) as [|[r t] q].
  - left; auto.
  - apply settle_settles_one; simpl; auto.
Qed.

Lemma settles_one_same cfg now s0 s :
  settled s0 = settled s -> circuitBreaker s0 = circuitBreaker s -> settles_one cfg now s s0.
Proof. intros; left; auto. Qed.

Lemma resume_settles_one cfg k now c s s' :
  resume cfg k now c s = Some s' -> settles_one cfg now s s'.
Proof.
  unfold resume. intros H.
  destruct (nth_error (tasks s) k) as [[| |id]|]; [| |destruct c|discriminate].
  - destruct (find_live _) as [i|].
    + injection H as <-. apply shift_settle_settles_one; reflexivity.
    + destruct (_ <? _).
      * injection H as <-. apply settles_one_same; reflexivity.
      * destruct (oldest_instance _); injection H as <-;
          [apply settles_one_same | apply shift_settle_settles_one]; reflexivity.
  - destruct c; injection H as <-; apply shift_settle_settles_one; reflexivity.
  - injection H as <-; apply shift_settle_settles_one; reflexivity.
  - injection H as <-; apply shift_settle_settles_one; reflexivity.
  - injection H as <-; apply shift_settle_settles_one; reflexivity.
Qed.

Lemma step_settles_one v cfg s e s' :
  step v cfg s e = Some s' ->
  (exists t, e = EvMonitor t) \/ settles_one cfg (event_time e) s s'.
Proof.
  destruct e as [now|r now|k now c|now|now]; simpl; intros H.
  - right. injection H as <-. unfold acquirePage.
    destruct (CBState_eqb _ _); [apply settle_settles_one; reflexivity|].
    destruct (_ >=? _); [apply settle_settles_one; reflexivity|].
    apply settles_one_same; reflexivity.
  - right. destruct (start_time s r); [|discriminate].
    destruct (_ <=? _); [|discriminate]. injection H as <-.
    destruct v; simpl.
    + unfold queueTimeout_playwright. destruct (remove_first r (requestQueue s)).
      * apply settle_settles_one; reflexivity.
      * apply settles_one_same; reflexivity.
    + apply settle_settles_one; reflexivity.
  - right. eapply resume_settles_one; eauto.
  - right. injection H as <-. apply settles_one_same; reflexivity.
  - left. eauto.
Qed.

Lemma cons_neq {A} (x : A) l : x :: l <> l.
Proof.
  intros H. apply (f_equal (@List.length A)) in H. simpl in H. lia.
Qed.

(* ================================================================== *)
(** * Claims on the circuit breaker *)

(** C1 (counterexample). With the shipped configuration (failureThreshold
    = 2), a breaker that opened after two failures and entered HALF_OPEN
    through the monitoring tick is still HALF_OPEN after one more failure. *)
Lemma half_open_single_failure_stays_half_open :
  let opened := reportOutcomes config_src [(100, false); (200, false)] (initialCircuitBreaker 0) in
  let half := circuitBreakerMonitorTick config_src 15300 opened in
  state opened = OPEN /\ state half = HALF_OPEN /\ failures half = 0
  /\ state (updateCircuitBreaker config_src 15400 false half) = HALF_OPEN.
Proof. vm_compute. repeat split. Qed.

(** C1 (amended). When the monitoring tick moves an OPEN breaker to
    HALF_OPEN it resets the counter to 0; a run of [S n] failures then
    re-opens it exactly when [S n] reaches failureThreshold, and leaves it
    HALF_OPEN otherwise: a single failure re-opens only when
    failureThreshold <= 1. *)
Theorem half_open_failures_reopen_at_threshold (cfg : Config) (t now : Z) (n : nat)
    (cb : CircuitBreaker) :
  state cb = OPEN -> t - lastFailure cb > resetTimeout cfg ->
  state (circuitBreakerMonitorTick cfg t cb) = HALF_OPEN
  /\ failures (circuitBreakerMonitorTick cfg t cb) = 0
  /\ state (reportOutcomes cfg (failure_run (S n) now) (circuitBreakerMonitorTick cfg t cb))
     = (if Z.of_nat (S n) >=? failureThreshold cfg then OPEN else HALF_OPEN).
Proof.
  intros Ho Ht.
  assert (E : circuitBreakerMonitorTick cfg t cb = mkCB HALF_OPEN 0 (lastFailure cb) (lastSuccess cb)).
  { unfold circuitBreakerMonitorTick. rewrite Ho. simpl.
    replace (t - lastFailure cb >? resetTimeout cfg) with true; auto.
    symmetry; apply Z.gtb_lt; lia. }
  rewrite E. split; [reflexivity|]. split; [reflexivity|].
  destruct (failure_run_half_open cfg n now (mkCB HALF_OPEN 0 (lastFailure cb) (lastSuccess cb)))
    as [A _]; [reflexivity|].
  rewrite A. simpl failures. rewrite Z.add_0_l. reflexivity.
Qed.

Lemma half_open_failures_reopen_at_threshold_witness :
  state (mkCB OPEN 2 200 0) = OPEN /\ 15300 - lastFailure (mkCB OPEN 2 200 0) > resetTimeout config_src
  /\ state (reportOutcomes config_src (failure_run 1 15400)
              (circuitBreakerMonitorTick config_src 15300 (mkCB OPEN 2 200 0))) = HALF_OPEN.
Proof.
  split; [reflexivity|]. split; [vm_compute; reflexivity|].
  destruct (half_open_failures_reopen_at_threshold config_src 15300 15400 0 (mkCB OPEN 2 200 0))
    as [_ [_ C]]; [reflexivity | vm_compute; reflexivity |].
  rewrite C. reflexivity.
Defined.

(** C10. A success reported while CLOSED changes only lastSuccess; so,
    from a CLOSED breaker, any run of outcomes with at least
    failureThreshold failures (successes interleaved anywhere) leaves the
    breaker OPEN: the counter counts failures, not consecutive ones. *)
Theorem closed_success_keeps_failure_count (cfg : Config) (now : Z) (cb : CircuitBreaker)
    (outs : list (Z * bool)) :
  state cb = CLOSED ->
  updateCircuitBreaker cfg now true cb = mkCB CLOSED (failures cb) (lastFailure cb) now
  /\ (0 <= failures cb -> 0 < failureThreshold cfg -> failureThreshold cfg <= count_failures outs ->
      state (reportOutcomes cfg outs cb) = OPEN).
Proof.
  intros Hc. split.
  - unfold updateCircuitBreaker. rewrite Hc. simpl. rewrite Hc. reflexivity.
  - intros Hf Ht Hn. destruct (reportOutcomes_counts cfg outs cb) as [_ H]; [congruence|].
    apply H; lia.
Qed.

Lemma closed_success_keeps_failure_count_witness :
  updateCircuitBreaker config_src 5 true (initialCircuitBreaker 0) = mkCB CLOSED 0 0 5
  /\ state (reportOutcomes config_src [(1, false); (2, true); (3, true); (4, false)]
              (initialCircuitBreaker 0)) = OPEN.
Proof.
  destruct (closed_success_keeps_failure_count config_src 5 (initialCircuitBreaker 0)
              [(1, false); (2, true); (3, true); (4, false)]) as [A B]; [reflexivity|].
  split; [exact A|]. apply B; vm_compute; congruence.
Defined.

(** C9. Every settlement of an [acquirePage] promise as a rejection (the
    fail-fast rejections for an OPEN breaker or a full queue, the queue
    timeout, a failed [processQueue]) reports a failure to the breaker:
    the counter goes up by one and lastFailure becomes the time of the
    rejection. A rejection while OPEN keeps the breaker OPEN, and every
    monitoring tick up to resetTimeout after it leaves the breaker as it
    is. *)
Theorem rejection_reports_failure (v : Variant) (cfg : Config) (s : PoolState) (e : Event)
    (s' : PoolState) (r : nat) (m : string) :
  step v cfg s e = Some s' ->
  settled s' = (r, Rejected m) :: settled s ->
  circuitBreaker s' = updateCircuitBreaker cfg (event_time e) false (circuitBreaker s)
  /\ failures (circuitBreaker s') = failures (circuitBreaker s) + 1
  /\ lastFailure (circuitBreaker s') = event_time e
  /\ (state (circuitBreaker s) = OPEN ->
      state (circuitBreaker s') = OPEN
      /\ forall t', t' - event_time e <= resetTimeout cfg ->
         circuitBreakerMonitorTick cfg t' (circuitBreaker s') = circuitBreaker s').
Proof.
  intros Hstep Hset.
  assert (Hcb : circuitBreaker s' = updateCircuitBreaker cfg (event_time e) false (circuitBreaker s)).
  { destruct (step_settles_one v cfg s e s' Hstep) as [[t ->]|[[Hs _]|[r' [o [Hs Hc]]]]].
    - simpl in Hstep. injection Hstep as <-. simpl in Hset. exfalso; eapply cons_neq; eauto.
    - rewrite Hset in Hs. exfalso; eapply cons_neq; eauto.
    - rewrite Hset in Hs. injection Hs as _ <-. exact Hc. }
  rewrite Hcb. split; [reflexivity|]. split; [reflexivity|]. split; [reflexivity|].
  intros Ho. split.
  - apply update_keeps_open, Ho.
  - intros t' Ht'. unfold circuitBreakerMonitorTick.
    rewrite (update_keeps_open cfg (event_time e) false _ Ho). simpl.
    replace (t' - event_time e >? resetTimeout cfg) with false; auto.
    symmetry; rewrite Z.gtb_ltb; apply Z.ltb_ge; lia.
Qed.

Lemma rejection_reports_failure_witness :
  settled (acquirePage config_src 500 open_pool)
    = [(0%nat, Rejected "Circuit breaker is open, requests are blocked")]
  /\ lastFailure (circuitBreaker (acquirePage config_src 500 open_pool)) = 500
  /\ failures (circuitBreaker (acquirePage config_src 500 open_pool)) = 3
  /\ circuitBreakerMonitorTick config_src 15500 (circuitBreaker (acquirePage config_src 500 open_pool))
     = circuitBreaker (acquirePage config_src 500 open_pool).
Proof.
  destruct (rejection_reports_failure Playwright config_src open_pool (EvAcquire 500)
              (acquirePage config_src 500 open_pool) 0 "Circuit breaker is open, requests are blocked")
    as [_ [F [L [_ T]]]]; [reflexivity | reflexivity | reflexivity | ].
  split; [reflexivity|]. split; [exact L|]. split; [rewrite F; reflexivity|].
  apply T; simpl; lia.
Defined.

(* ================================================================== *)
(** * Pool size and queue timeout *)

Lemma run_reachable v cfg es : forall s s',
  reachable v cfg s -> run v cfg s es = Some s' -> reachable v cfg s'.
Proof.
  induction es as [|e es IH]; simpl; intros s s' Hr H.
  - injection H as <-; exact Hr.
  - destruct (step v cfg s e) as [s1|] eqn:E; [|discriminate].
    apply (IH s1); [econstructor; eauto | exact H].
Qed.

(** C2 (failing input). [processQueue] tests [pool.length < maxConcurrentBrowsers]
    before [await this.createBrowserInstance()] and pushes after it; two
    calls suspended at that await both push. With the configuration of
    src/src/config/index.ts (one browser, queue of one) the pool of
    src/src/services/browser.ts reaches two instances. *)
Theorem pool_bound_exceeded_by_overlapping_creation :
  exists s, run Playwright config_src (initialPool 0) race_trace_src = Some s
    /\ reachable Playwright config_src s
    /\ Z.of_nat (List.length (pool s)) = 2
    /\ maxConcurrentBrowsers config_src = 1.
Proof.
  eexists. split; [vm_compute; reflexivity|].
  split; [apply (run_reachable Playwright config_src race_trace_src (initialPool 0)); [apply reach_init | vm_compute; reflexivity]|].
  split; reflexivity.
Qed.

(** The same overlap in src/unnamed/part_017 with the configuration of
    part_021 (five browsers, queue of 100): six instances. *)
Lemma pool_bound_exceeded_patchright :
  exists s, run Patchright config_part021 (initialPool 0) race_trace_part021 = Some s
    /\ Z.of_nat (List.length (pool s)) = 6
    /\ maxConcurrentBrowsers config_part021 = 5.
Proof. eexists. split; [vm_compute; reflexivity|]. split; reflexivity. Qed.

(** C3 (failing input). In src/unnamed/part_017 the queue timeout of
    [withTimeout] rejects the request but leaves its entry in the queue:
    the queue length stays 1, and the next acquisition is refused as
    'Request queue is full'. *)
Theorem patchright_queue_timeout_keeps_entry :
  exists s, run Patchright config_src (initialPool 0) timeout_trace = Some s
    /\ settled s = [(0%nat, Rejected "Operation timed out")]
    /\ requestQueue s = [(0%nat, 0)]
    /\ settled (acquirePage config_src 15001 s)
       = [(1%nat, Rejected "Request queue is full"); (0%nat, Rejected "Operation timed out")].
Proof. eexists. split; [vm_compute; reflexivity|]. repeat split; vm_compute; reflexivity. Qed.

(** The queue of src/src/services/browser.ts holds exactly the pending
    requests, each once. *)
Definition QInv (s : PoolState) : Prop :=
  NoDup (queue_ids s)
  /\ (forall r, In r (queue_ids s) <-> pending s r)
  /\ (forall r, In r (map fst (started s)) -> (r < nextReq s)%nat)
  /\ (forall r, is_settled s r = true -> (r < nextReq s)%nat).

Lemma is_settled_settle cfg now r o s x :
  is_settled (settle cfg now r o s) x = Nat.eqb r x || is_settled s x.
Proof.
  unfold settle. destruct (is_settled s r) eqn:E; [|reflexivity].
  destruct (Nat.eqb_spec r x) as [<-|]; simpl; [rewrite E|]; reflexivity.
Qed.

Lemma settle_fields cfg now r o s :
  requestQueue (settle cfg now r o s) = requestQueue s
  /\ started (settle cfg now r o s) = started s
  /\ nextReq (settle cfg now r o s) = nextReq s.
Proof. unfold settle; destruct (is_settled s r); simpl; auto. Qed.

Lemma QInv_same s s' :
  requestQueue s' = requestQueue s -> started s' = started s ->
  settled s' = settled s -> nextReq s' = nextReq s -> QInv s -> QInv s'.
Proof.
  intros Hq Hs Hd Hn. unfold QInv, queue_ids, pending, is_settled.
  rewrite Hq, Hs, Hd, Hn. auto.
Qed.

Lemma QInv_remove_settle cfg now r o s q' :
  QInv s -> In r (queue_ids s) -> NoDup (map fst q') ->
  (forall x, In x (map fst q') <-> In x (queue_ids s) /\ x <> r) ->
  QInv (settle cfg now r o (set_queue s q')).
Proof.
  intros [Hnd [Hp [Hst Hse]]] Hin Hnd' Hq'.
  destruct (settle_fields cfg now r o (set_queue s q')) as [Eq [Es En]].
  assert (Hr : is_settled s r = false) by (apply Hp in Hin; apply Hin).
  assert (Hrn : (r < nextReq s)%nat) by (apply Hst; apply Hp in Hin; apply Hin).
  unfold QInv, queue_ids, pending. rewrite Eq, Es, En. simpl.
  split; [exact Hnd'|]. split; [|split; [exact Hst|]].
  - intros x. rewrite is_settled_settle, Hq'. unfold is_settled at 1; simpl.
    rewrite (Hp x). unfold pending.
    destruct (Nat.eqb_spec r x) as [<-|Hne]; simpl.
    + split; [intros [_ H]; congruence | intros [_ H]; discriminate].
    + split; [intros [H _]; exact H | intros H; split; [exact H | congruence]].
  - intros x. rewrite is_settled_settle. unfold is_settled at 1. simpl.
    destruct (Nat.eqb_spec r x) as [<-|]; simpl; [auto | apply Hse].
Qed.

Lemma remove_first_spec r q : forall q',
  remove_first r q = Some q' -> NoDup (map fst q) ->
  NoDup (map fst q') /\ S (List.length q') = List.length q
  /\ (forall x, In x (map fst q') <-> In x (map fst q) /\ x <> r).
Proof.
  induction q as [|[a t] q IH]; simpl; intros q' H Hnd; [discriminate|].
  inversion Hnd as [|? ? Hnin Hnd0]; subst.
  destruct (Nat.eqb_spec a r) as [<-|Hne].
  - injection H as <-. split; [exact Hnd0|]. split; [reflexivity|].
    intros x; split; [intros Hx; split; [right; exact Hx | intros ->; contradiction]
                     |intros [[->|Hx] Hne]; [congruence | exact Hx]].
  - destruct (remove_first r q) as [q1|] eqn:E; simpl in H; [|discriminate].
    injection H as <-. destruct (IH q1 eq_refl Hnd0) as [N [L I]].
    simpl. split; [constructor; [rewrite I; intros [Hx _]; contradiction | exact N]|].
    split; [rewrite <- L; reflexivity|].
    intros x; rewrite I; split.
    + intros [->|[Hx Hx']]; [split; [left; reflexivity | exact Hne] | split; [right; exact Hx | exact Hx']].
    + intros [[->|Hx] Hx']; [left; reflexivity | right; split; assumption].
Qed.

Lemma remove_first_in r q : In r (map fst q) -> exists q', remove_first r q = Some q'.
Proof.
  induction q as [|[a t] q IH]; simpl; [contradiction|].
  destruct (Nat.eqb_spec a r) as [<-|Hne]; [eauto|].
  intros [->|H]; [congruence|]. destruct (IH H) as [q' ->]. simpl; eauto.
Qed.

Lemma QInv_shift_settle cfg now o s : QInv s -> QInv (shift_settle cfg now o s).
Proof.
  intros Hi. unfold shift_settle. destruct (requestQueue s) as [|[r t] q] eqn:Eq; [exact Hi|].
  destruct Hi as [Hnd HH]. unfold queue_ids in Hnd. rewrite Eq in Hnd.
  inversion Hnd as [|? ? Hnin Hnd0]; subst.
  apply QInv_remove_settle; [split; [unfold queue_ids; rewrite Eq; exact Hnd | exact HH]
                            |unfold queue_ids; rewrite Eq; left; reflexivity | exact Hnd0 |].
  intros x. unfold queue_ids. rewrite Eq. simpl. split.
  - intros Hx. split; [right; exact Hx | intros ->; contradiction].
  - intros [[->|Hx] Hne]; [congruence | exact Hx].
Qed.

Lemma QInv_init now : QInv (initialPool now).
Proof.
  unfold QInv, queue_ids, pending, is_settled; simpl.
  split; [constructor|]. split; [intros r; split; [contradiction | intros [[] _]]|].
  split; intros r H; [contradiction | discriminate].
Qed.

Lemma QInv_acquire cfg now s : QInv s -> QInv (acquirePage cfg now s).
Proof.
  intros Hi. pose proof Hi as [Hnd [Hp [Hst Hse]]].
  assert (Hfresh : is_settled s (nextReq s) = false).
  { destruct (is_settled s (nextReq s)) eqn:E; auto. apply Hse in E; lia. }
  assert (Rej : forall m, QInv (settle cfg now (nextReq s) (Rejected m)
                 (mkPool (pool s) (requestQueue s) (tasks s) (circuitBreaker s)
                    (started s) (settled s) (nextInst s) (S (nextReq s))))).
  { intros m. set (s0 := mkPool _ _ _ _ _ _ _ _).
    destruct (settle_fields cfg now (nextReq s) (Rejected m) s0) as [Eq [Es En]].
    unfold QInv, queue_ids, pending. rewrite Eq, Es, En. simpl.
    split; [exact Hnd|]. split; [|split].
    - intros x. rewrite is_settled_settle. unfold is_settled at 1; simpl. fold (is_settled s x).
      rewrite (Hp x). unfold pending.
      destruct (Nat.eqb_spec (nextReq s) x) as [<-|Hne]; simpl; [|reflexivity].
      split; [intros [H _]; apply Hst in H; lia | intros [_ H]; discriminate].
    - intros x H. apply Hst in H. lia.
    - intros x. rewrite is_settled_settle. unfold is_settled at 1; simpl. fold (is_settled s x).
      destruct (Nat.eqb_spec (nextReq s) x) as [<-|]; simpl; [lia|]. intros H; apply Hse in H; lia. }
  unfold acquirePage.
  destruct (CBState_eqb _ _); [apply Rej|].
  destruct (_ >=? _); [apply Rej|].
  unfold QInv, queue_ids, pending, is_settled in *; simpl.
  rewrite !map_app; simpl.
  split; [|split; [|split]].
  - apply NoDup_app; [exact Hnd | constructor; [intros []|constructor] |].
    intros x Hx [<-|[]]. apply Hp in Hx. destruct Hx as [Hx _]. apply Hst in Hx; lia.
  - intros x. rewrite !in_app_iff. simpl. rewrite (Hp x).
    split; [intros [[H1 H2]|[<-|[]]]; [split; [left|]; assumption | split; [right; left; reflexivity | exact Hfresh]]|].
    intros [[H1|[<-|[]]] H2]; [left; split; assumption | right; left; reflexivity].
  - intros x. rewrite in_app_iff. simpl. intros [H|[<-|[]]]; [apply Hst in H|]; lia.
  - intros x H. apply Hse in H. lia.
Qed.

Ltac qinv_same :=
  match goal with
  | H : QInv ?s0 |- _ =>
      apply (QInv_same s0); [reflexivity|reflexivity|reflexivity|reflexivity|exact H]
  end.

Lemma QInv_resume cfg k now c s s' : QInv s -> resume cfg k now c s = Some s' -> QInv s'.
Proof.
  intros Hi H. unfold resume in H.
  destruct (nth_error (tasks s) k) as [[| |id]|]; [| |destruct c|discriminate].
  - destruct (find_live _) as [i|].
    + injection H as <-. apply QInv_shift_settle. qinv_same.
    + destruct (_ <? _).
      * injection H as <-. qinv_same.
      * destruct (oldest_instance _); injection H as <-;
          [qinv_same | apply QInv_shift_settle; qinv_same].
  - destruct c; injection H as <-; apply QInv_shift_settle; qinv_same.
  - injection H as <-; apply QInv_shift_settle; qinv_same.
  - injection H as <-; apply QInv_shift_settle; qinv_same.
  - injection H as <-; apply QInv_shift_settle; qinv_same.
Qed.

Lemma QInv_step cfg s e s' : QInv s -> step Playwright cfg s e = Some s' -> QInv s'.
Proof.
  intros Hi H. destruct e as [now|r now|k now c|now|now]; simpl in H.
  - injection H as <-. apply QInv_acquire, Hi.
  - destruct (start_time s r); [|discriminate]. destruct (_ <=? _); [|discriminate].
    injection H as <-. simpl. unfold queueTimeout_playwright.
    destruct (remove_first r (requestQueue s)) as [q|] eqn:E; [|exact Hi].
    pose proof Hi as [Hnd _].
    destruct (remove_first_spec r (requestQueue s) q E Hnd) as [N [_ I]].
    apply QInv_remove_settle; [exact Hi | | exact N | exact I].
    destruct (in_dec Nat.eq_dec r (queue_ids s)) as [Hin|Hnin]; [exact Hin|].
    exfalso. specialize (I r). unfold queue_ids in Hnin.
    clear - E Hnin. revert q E. induction (requestQueue s) as [|[a t] l IH]; simpl; [discriminate|].
    intros q. destruct (Nat.eqb_spec a r); [simpl in Hnin; tauto|].
    destruct (remove_first r l) eqn:E'; simpl; [|discriminate]. intros _.
    apply (IH (fun h => Hnin (or_intror h)) l0 eq_refl).
  - eapply QInv_resume; eauto.
  - injection H as <-. qinv_same.
  - injection H as <-. qinv_same.
Qed.

Lemma QInv_reachable cfg s : reachable Playwright cfg s -> QInv s.
Proof.
  induction 1 as [now|s e s' _ IH H]; [apply QInv_init | eapply QInv_step; eauto].
Qed.

(** In src/src/services/browser.ts the queue timeout of a pending request
    rejects it with 'Request queue timeout' and takes its entry out of the
    queue, whose length goes down by one. *)
Lemma playwright_queue_timeout_removes_entry (cfg : Config) (s : PoolState) (r : nat) (t now : Z) :
  reachable Playwright cfg s -> pending s r -> start_time s r = Some t -> t + queueTimeoutMs cfg <= now ->
  exists s', step Playwright cfg s (EvTimeout r now) = Some s'
    /\ S (List.length (requestQueue s')) = List.length (requestQueue s)
    /\ ~ In r (queue_ids s')
    /\ settled s' = (r, Rejected "Request queue timeout") :: settled s.
Proof.
  intros Hr Hp Ht Hle. pose proof (QInv_reachable cfg s Hr) as Hi.
  pose proof Hi as [Hnd [HP _]].
  assert (Hin : In r (queue_ids s)) by (apply HP, Hp).
  destruct (remove_first_in r (requestQueue s) Hin) as [q E].
  destruct (remove_first_spec r (requestQueue s) q E Hnd) as [N [L I]].
  simpl. rewrite Ht. replace (t + queueTimeoutMs cfg <=? now) with true by (symmetry; apply Z.leb_le; lia).
  eexists. split; [reflexivity|]. simpl. unfold queueTimeout_playwright. rewrite E.
  destruct Hp as [_ Hs].
  unfold settle. simpl. unfold is_settled in *; simpl. rewrite Hs. simpl.
  split; [exact L|]. split; [|reflexivity].
  unfold queue_ids; simpl. rewrite I. tauto.
Qed.

(* ================================================================== *)
(** * Navigation: the retry ceiling and the URL check *)

Lemma goto_count_app es es' : goto_count (es ++ es') = (goto_count es + goto_count es')%nat.
Proof. unfold goto_count. rewrite filter_app, length_app. reflexivity. Qed.

Lemma nav_loop_S cfg body backoff jit fuel attempts delay :
  nav_loop cfg body backoff jit (S fuel) attempts delay =
  if Z.of_nat attempts <? maxRetries cfg then
    match body attempts with
    | (es, None) => (es, NavOk)
    | (es, Some msg) =>
        if Z.of_nat (S attempts) >=? maxRetries cfg then
          (es, NavErr ("Navigation failed after " ++ nat_to_string (S attempts) ++ " attempts: " ++ msg))
        else
          match backoff attempts (Z.min (delay * 2 + jit attempts) (maxRetryDelay cfg)) with
          | (ws, Some e) => ((es ++ ws)%list, NavErr e)
          | (ws, None) =>
              let (es', r) := nav_loop cfg body backoff jit fuel (S attempts)
                                (Z.min (delay * 2 + jit attempts) (maxRetryDelay cfg)) in
              ((es ++ ws ++ es')%list, r)
          end
    end
  else ([], NavOk).
Proof. reflexivity. Qed.

(** When every pass through the [try] block throws and no sleep throws, the
    loop makes its remaining passes and throws the ceiling error with the
    last pass's message. *)
Lemma nav_loop_all_fail cfg body backoff jit msg (N : nat) :
  Z.of_nat N = maxRetries cfg ->
  (forall i, snd (body i) = Some (msg i) /\ goto_count (fst (body i)) = 1%nat) ->
  (forall i d, snd (backoff i d) = None /\ goto_count (fst (backoff i d)) = 0%nat) ->
  forall f a d, (a + f = N)%nat -> (a < N)%nat ->
  goto_count (fst (nav_loop cfg body backoff jit f a d)) = f
  /\ snd (nav_loop cfg body backoff jit f a d)
     = NavErr ("Navigation failed after " ++ nat_to_string N ++ " attempts: " ++ msg (pred N)).
Proof.
  intros HN Hb Hw f. induction f as [|f IH]; intros a d Hf Ha; [lia|].
  rewrite nav_loop_S.
  replace (Z.of_nat a <? maxRetries cfg) with true by (symmetry; apply Z.ltb_lt; lia).
  destruct (Hb a) as [Hm Hg]. destruct (body a) as [es r]. cbn [fst snd] in Hm, Hg. subst r.
  destruct (Z.of_nat (S a) >=? maxRetries cfg) eqn:E.
  - apply Z.geb_le in E. assert (S a = N) as HSa by lia. subst N. rewrite <- HSa.
    cbn [fst snd pred]. split; [lia | reflexivity].
  - rewrite Z.geb_leb, Z.leb_gt in E.
    destruct (Hw a (Z.min (d * 2 + jit a) (maxRetryDelay cfg))) as [Hw1 Hw2].
    destruct (backoff a _) as [ws e]. cbn [fst snd] in Hw1, Hw2. subst e.
    destruct (IH (S a) (Z.min (d * 2 + jit a) (maxRetryDelay cfg))) as [G M]; [lia | lia |].
    destruct (nav_loop cfg body backoff jit f (S a) _) as [es' r]. cbn [fst snd] in G, M |- *.
    rewrite !goto_count_app. split; [lia | exact M].
Qed.

Lemma validation_loop_no_goto env i j fuel : goto_count (fst (Patchright.validation_loop env i j fuel)) = 0%nat.
Proof.
  revert j. induction fuel as [|fuel IH]; intros j; simpl; [reflexivity|].
  destruct (isValid _); [reflexivity|]. destruct (negb _); [|reflexivity].
  destruct fuel; [reflexivity|].
  specialize (IH (S j)). destruct (Patchright.validation_loop env i (S j) (S fuel)) as [es r].
  exact IH.
Qed.

Lemma playwright_attempt_one_goto cfg parse env url i :
  goto_count (fst (Playwright.attempt cfg parse env url i)) = 1%nat.
Proof.
  unfold Playwright.attempt. destruct (goto_result env i); [reflexivity|reflexivity|].
  destruct (_ >=? _); reflexivity.
Qed.

Lemma patchright_attempt_one_goto cfg parse env url i :
  page_closed env i = false ->
  goto_count (fst (Patchright.attempt cfg parse env url i)) = 1%nat.
Proof.
  intros Hc. unfold Patchright.attempt. rewrite Hc.
  destruct (goto_result env i); [reflexivity|reflexivity|].
  destruct (_ >=? _); [reflexivity|].
  pose proof (validation_loop_no_goto env i 0 3) as G.
  destruct (Patchright.validation_loop env i 0 3) as [es r]. simpl in *.
  unfold goto_count in *; simpl. rewrite G. reflexivity.
Qed.


Lemma url_check_ok cfg parse url p :
  parse url = Some p ->
  string_mem (protocol p) (allowedProtocols cfg) = true ->
  Z.of_nat (String.length url) <= maxUrlLength cfg ->
  url_check cfg parse url = inl p.
Proof.
  intros Hp Hm Hl. unfold url_check. rewrite Hp, Hm. simpl.
  replace (Z.of_nat (String.length url) >? maxUrlLength cfg) with false; [reflexivity|].
  symmetry. rewrite Z.gtb_ltb. apply Z.ltb_ge. lia.
Qed.

Lemma goto_count_cookies cs es : goto_count (AddCookies cs :: es) = goto_count es.
Proof. reflexivity. Qed.

Lemma nav_loop_from_start cfg body backoff jit :
  0 < maxRetries cfg ->
  (forall i, snd (body i) <> None /\ goto_count (fst (body i)) = 1%nat) ->
  (forall i d, snd (backoff i d) = None /\ goto_count (fst (backoff i d)) = 0%nat) ->
  let N := Z.to_nat (maxRetries cfg) in
  goto_count (fst (nav_loop cfg body backoff jit N 0 (initialRetryDelay cfg))) = N
  /\ snd (nav_loop cfg body backoff jit N 0 (initialRetryDelay cfg))
     = NavErr ("Navigation failed after " ++ nat_to_string N ++ " attempts: "
               ++ attempt_error (body (pred N))).
Proof.
  intros Hpos Hb Hw N.
  apply (nav_loop_all_fail cfg body backoff jit (fun i => attempt_error (body i)) N).
  - subst N. rewrite Z2Nat.id; lia.
  - intros i. destruct (Hb i) as [H1 H2]. split; [|exact H2].
    unfold attempt_error. destruct (snd (body i)); [reflexivity | contradiction].
  - exact Hw.
  - lia.
  - subst N. lia.
Qed.

(** C5. For a URL that passes the check (allowed protocol, length within
    [maxUrlLength]) and whose every attempt fails, with the consent
    cookies set, the page open and the sleeps resolving, both versions of
    [safePageNavigation] call [page.goto] exactly [maxRetries] times and
    raise "Navigation failed after N attempts: <last error>" with
    N = [maxRetries] and the message of the last attempt. *)
Theorem navigation_retry_ceiling cfg parse env url p :
  0 < maxRetries cfg ->
  parse url = Some p ->
  string_mem (protocol p) (allowedProtocols cfg) = true ->
  Z.of_nat (String.length url) <= maxUrlLength cfg ->
  addCookies_error env = None ->
  (forall i, page_closed env i = false) ->
  (forall i, backoff_wait_error env i = None) ->
  (forall i, snd (Playwright.attempt cfg parse env url i) <> None) ->
  (forall i, snd (Patchright.attempt cfg parse env url i) <> None) ->
  let N := Z.to_nat (maxRetries cfg) in
  goto_count (fst (Playwright.safePageNavigation cfg parse env url)) = N
  /\ snd (Playwright.safePageNavigation cfg parse env url)
     = NavErr ("Navigation failed after " ++ nat_to_string N ++ " attempts: "
               ++ attempt_error (Playwright.attempt cfg parse env url (pred N)))
  /\ goto_count (fst (Patchright.safePageNavigation cfg parse env url)) = N
  /\ snd (Patchright.safePageNavigation cfg parse env url)
     = NavErr ("Navigation failed after " ++ nat_to_string N ++ " attempts: "
               ++ attempt_error (Patchright.attempt cfg parse env url (pred N))).
Proof.
  intros Hpos Hp Hm Hl Hc Hcl Hw Hf1 Hf2 N.
  pose proof (url_check_ok cfg parse url p Hp Hm Hl) as U.
  destruct (nav_loop_from_start cfg (Playwright.attempt cfg parse env url)
              (Playwright.backoff env) (jitter env) Hpos) as [G1 M1].
  { intros i. split; [apply Hf1 | apply playwright_attempt_one_goto]. }
  { intros i d. split; [apply Hw | reflexivity]. }
  destruct (nav_loop_from_start cfg (Patchright.attempt cfg parse env url)
              Patchright.backoff (jitter env) Hpos) as [G2 M2].
  { intros i. split; [apply Hf2 | apply patchright_attempt_one_goto; apply Hcl]. }
  { intros i d. split; reflexivity. }
  fold N in G1, M1, G2, M2.
  unfold Playwright.safePageNavigation, Patchright.safePageNavigation.
  rewrite U, Hc, Hcl. fold N.
  destruct (nav_loop cfg (Playwright.attempt cfg parse env url) (Playwright.backoff env)
              (jitter env) N 0 (initialRetryDelay cfg)) as [es1 r1].
  destruct (nav_loop cfg (Patchright.attempt cfg parse env url) Patchright.backoff
              (jitter env) N 0 (initialRetryDelay cfg)) as [es2 r2].
  cbn [fst snd] in *. rewrite !goto_count_cookies.
  repeat split; assumption.
Qed.

Lemma navigation_retry_ceiling_witness :
  0 < maxRetries config_src
  /\ (let N := Z.to_nat (maxRetries config_src) in
  goto_count (fst (Playwright.safePageNavigation config_src simple_parse_url env_http500 "http://example.com")) = N
  /\ snd (Playwright.safePageNavigation config_src simple_parse_url env_http500 "http://example.com")
     = NavErr ("Navigation failed after " ++ nat_to_string N ++ " attempts: "
               ++ attempt_error (Playwright.attempt config_src simple_parse_url env_http500 "http://example.com" (pred N)))
  /\ goto_count (fst (Patchright.safePageNavigation config_src simple_parse_url env_http500 "http://example.com")) = N
  /\ snd (Patchright.safePageNavigation config_src simple_parse_url env_http500 "http://example.com")
     = NavErr ("Navigation failed after " ++ nat_to_string N ++ " attempts: "
               ++ attempt_error (Patchright.attempt config_src simple_parse_url env_http500 "http://example.com" (pred N)))).
Proof.
  split; [vm_compute; reflexivity|].
  apply (navigation_retry_ceiling config_src simple_parse_url env_http500 "http://example.com"
           (mkUrl "http:" "example.com")).
  - vm_compute. reflexivity.
  - vm_compute. reflexivity.
  - vm_compute. reflexivity.
  - vm_compute. intro F; discriminate F.
  - reflexivity.
  - intros i. reflexivity.
  - intros i. reflexivity.
  - intros i. vm_compute. intro F; discriminate F.
  - intros i. vm_compute. intro F; discriminate F.
Defined.

(** The shipped configuration on a URL answering HTTP 500: two [page.goto]
    calls, then the ceiling error. *)
Example navigation_http500_message :
  Playwright.safePageNavigation config_src simple_parse_url env_http500 "http://example.com"
  = ([AddCookies [consent_cookie ".google.com"]; Goto "http://example.com"; WaitMs 1500;
      Goto "http://example.com"],
     NavErr "Navigation failed after 2 attempts: HTTP 500: Internal Server Error").
Proof. vm_compute. reflexivity. Qed.

(** C6. A URL that parses but whose protocol is not allowed, or which is
    longer than [maxUrlLength], is refused by both versions before any
    effect: no cookie, no [page.goto], no retry; the error is the
    protocol error, or the length error when the protocol is allowed. *)
Theorem url_rejected_before_navigation cfg parse env url p :
  parse url = Some p ->
  string_mem (protocol p) (allowedProtocols cfg) = false
  \/ Z.of_nat (String.length url) > maxUrlLength cfg ->
  let m := if string_mem (protocol p) (allowedProtocols cfg)
           then "URL exceeds maximum length"
           else "Unsupported protocol: " ++ protocol p in
  Playwright.safePageNavigation cfg parse env url = ([], NavErr m)
  /\ Patchright.safePageNavigation cfg parse env url = ([], NavErr m).
Proof.
  intros Hp Hbad m.
  assert (U : url_check cfg parse url = inr m).
  { unfold url_check, m. rewrite Hp.
    destruct (string_mem (protocol p) (allowedProtocols cfg)) eqn:E; simpl; [|reflexivity].
    destruct Hbad as [F | Hl]; [discriminate F|].
    replace (Z.of_nat (String.length url) >? maxUrlLength cfg) with true; [reflexivity|].
    symmetry. rewrite Z.gtb_ltb. apply Z.ltb_lt. lia. }
  unfold Playwright.safePageNavigation, Patchright.safePageNavigation. rewrite U.
  split; reflexivity.
Qed.

Lemma url_rejected_before_navigation_witness :
  simple_parse_url "ftp://example.com" = Some (mkUrl "ftp:" "example.com")
  /\ Playwright.safePageNavigation config_src simple_parse_url env_http500 "ftp://example.com"
     = ([], NavErr "Unsupported protocol: ftp:")
  /\ Patchright.safePageNavigation config_src simple_parse_url env_http500 "ftp://example.com"
     = ([], NavErr "Unsupported protocol: ftp:").
Proof.
  split; [vm_compute; reflexivity|].
  apply (url_rejected_before_navigation config_src simple_parse_url env_http500
           "ftp://example.com" (mkUrl "ftp:" "example.com")).
  - vm_compute. reflexivity.
  - left. vm_compute. reflexivity.
Defined.

(* ================================================================== *)
(** * Page validation: properties *)





(* ================================================================== *)
(** * Consent dismissal: properties *)

(** C7 (counterexample). On an open page at https://example.com/, whose
    URL contains no consent region, browser.ts does nothing, but
    part_017 adds the CONSENT and SOCS cookies for .google.com to the
    context and injects its consent script. *)
Lemma consent_mutates_outside_regions :
  existsb (fun domain => includes (cons_url example_consent_env) domain)
          (CONSENT_REGIONS config_src) = false
  /\ PlaywrightConsent.dismissGoogleConsent config_src example_consent_env = []
  /\ PatchrightConsent.dismissGoogleConsent example_consent_env
     = [CAddCookies PatchrightConsent.consentCookies; CInjectScript; CQuery]
  /\ existsb mutating (PatchrightConsent.dismissGoogleConsent example_consent_env) = true.
Proof. vm_compute. repeat split. Qed.

(** C7 (amended). browser.ts's [dismissGoogleConsent] does nothing on a
    page whose URL contains no consent region. part_017's does not look at
    the URL: for every page, on a closed page it does nothing, and on an
    open page it always starts by adding the CONSENT and SOCS cookies for
    .google.com, then, unless that throws, injects its consent script.
    Neither version throws. *)
Theorem dismissGoogleConsent_effects cfg env :
  (existsb (fun domain => includes (cons_url env) domain) (CONSENT_REGIONS cfg) = false ->
   PlaywrightConsent.dismissGoogleConsent cfg env = [])
  /\ (cons_closed env = true -> PatchrightConsent.dismissGoogleConsent env = [])
  /\ (cons_closed env = false ->
      exists rest, PatchrightConsent.dismissGoogleConsent env
                   = CAddCookies PatchrightConsent.consentCookies :: rest
      /\ (addCookies_fails env = false -> exists rest', rest = CInjectScript :: rest')).
Proof.
  split; [intros Hr; unfold PlaywrightConsent.dismissGoogleConsent; rewrite Hr; reflexivity|].
  unfold PatchrightConsent.dismissGoogleConsent.
  split; intros Hc; rewrite Hc; [reflexivity|].
  eexists. split; [reflexivity|].
  intros Ha. rewrite Ha. eexists. reflexivity.
Qed.

Lemma dismissGoogleConsent_effects_witness :
  existsb (fun domain => includes (cons_url example_consent_env) domain)
          (CONSENT_REGIONS config_src) = false
  /\ cons_closed example_consent_env = false
  /\ addCookies_fails example_consent_env = false
  /\ PlaywrightConsent.dismissGoogleConsent config_src example_consent_env = []
  /\ (exists rest, PatchrightConsent.dismissGoogleConsent example_consent_env
                   = CAddCookies PatchrightConsent.consentCookies :: rest
      /\ (addCookies_fails example_consent_env = false ->
          exists rest', rest = CInjectScript :: rest')).
Proof.
  assert (Hr : existsb (fun domain => includes (cons_url example_consent_env) domain)
                 (CONSENT_REGIONS config_src) = false) by (vm_compute; reflexivity).
  destruct (dismissGoogleConsent_effects config_src example_consent_env) as [H1 [_ H3]].
  split; [exact Hr|]. split; [reflexivity|]. split; [reflexivity|].
  split; [exact (H1 Hr)|]. exact (H3 eq_refl).
Defined.

(* ================================================================== *)
(** * Instance recycling: properties *)

Lemma page_open_append ps n id :
  n <> id ->
  existsb (fun p => (fst p =? id)%nat && snd p) (ps ++ [(n, true)])
  = existsb (fun p => (fst p =? id)%nat && snd p) ps.
Proof.
  intros Hn. rewrite existsb_app. simpl.
  replace ((n =? id)%nat) with false by (symmetry; apply Nat.eqb_neq; exact Hn).
  rewrite orb_false_r. reflexivity.
Qed.

Lemma existsb_close_page ps id :
  existsb (fun p => (fst p =? id)%nat && snd p)
          (map (fun p => if (fst p =? id)%nat then (fst p, false) else p) ps) = false.
Proof.
  induction ps as [|[k o] ps IH]; [reflexivity|]. simpl.
  destruct (k =? id)%nat eqn:E; simpl; rewrite ?E; simpl; exact IH.
Qed.

Lemma existsb_close_others ps id :
  existsb (fun p => (fst p =? id)%nat && snd p)
          (map (fun p => if (fst p =? id)%nat then p else (fst p, false)) ps)
  = existsb (fun p => (fst p =? id)%nat && snd p) ps.
Proof.
  induction ps as [|[k o] ps IH]; [reflexivity|]. simpl.
  destruct (k =? id)%nat eqn:E; simpl; rewrite ?E, ?andb_false_r; simpl; rewrite IH; reflexivity.
Qed.

Lemma page_open_new ps n :
  existsb (fun p => (fst p =? n)%nat && snd p) (ps ++ [(n, true)]) = true.
Proof. rewrite existsb_app. simpl. rewrite Nat.eqb_refl. apply orb_true_r. Qed.

(** C8. With no call failing, part_017's [recycleBrowserInstance] does all
    the specification lists: the current page is closed (when it was
    already closed it is left alone), cookies and permissions are cleared,
    a new page becomes [instance.page], [lastUsed] is [now], the counters
    are reset, and context and browser stay alive. browser.ts's version
    does all of it except closing the current page: it closes only the
    other pages, so the old page stays open in the context, no longer
    referenced by the instance. *)
Theorem playwright_recycle_leaves_page_open now inst :
  Recycle.page_open (Recycle.context inst) (Recycle.page inst) = true ->
  (Recycle.page inst < Recycle.next_page (Recycle.context inst))%nat ->
  (exists i, Recycle.Playwright.recycleBrowserInstance Recycle.no_failures now inst
             = Recycle.Recycled i
   /\ Recycle.page_open (Recycle.context i) (Recycle.page inst) = true
   /\ Recycle.page i <> Recycle.page inst
   /\ ~ Recycle.recycled_as_specified now inst i)
  /\ (exists i, Recycle.Patchright.recycleBrowserInstance Recycle.no_failures now inst
             = Recycle.Recycled i
   /\ Recycle.recycled_as_specified now inst i).
Proof.
  intros Hopen Hlt. destruct inst as [[ps cs perms co bo np] pg lu fc mu].
  unfold Recycle.page_open in Hopen.
  cbn [Recycle.context Recycle.page Recycle.next_page Recycle.pages] in *.
  assert (Hne : np <> pg) by lia.
  split.
  - eexists. split; [reflexivity|].
    unfold Recycle.page_open in *; cbn.
    rewrite page_open_append by exact Hne.
    rewrite existsb_close_others. split; [exact Hopen|]. split; [lia|].
    intros [F _]. cbn in F. rewrite page_open_append in F by exact Hne.
    rewrite existsb_close_others in F. rewrite Hopen in F. discriminate F.
  - unfold Recycle.Patchright.recycleBrowserInstance. cbn [Recycle.context Recycle.page].
    unfold Recycle.page_open at 1. cbn [Recycle.pages]. rewrite Hopen.
    cbn. eexists. split; [reflexivity|].
    unfold Recycle.recycled_as_specified, Recycle.page_open. cbn.
    rewrite page_open_append by exact Hne. rewrite existsb_close_page.
    rewrite page_open_new. repeat split.
Qed.

Lemma playwright_recycle_leaves_page_open_witness :
  Recycle.page_open (Recycle.context Recycle.sample_instance)
                    (Recycle.page Recycle.sample_instance) = true
  /\ (Recycle.page Recycle.sample_instance
      < Recycle.next_page (Recycle.context Recycle.sample_instance))%nat
  /\ ((exists i, Recycle.Playwright.recycleBrowserInstance Recycle.no_failures 5000
                   Recycle.sample_instance = Recycle.Recycled i
      /\ Recycle.page_open (Recycle.context i) (Recycle.page Recycle.sample_instance) = true
      /\ Recycle.page i <> Recycle.page Recycle.sample_instance
      /\ ~ Recycle.recycled_as_specified 5000 Recycle.sample_instance i)
  /\ (exists i, Recycle.Patchright.recycleBrowserInstance Recycle.no_failures 5000
                   Recycle.sample_instance = Recycle.Recycled i
      /\ Recycle.recycled_as_specified 5000 Recycle.sample_instance i)).
Proof.
  split; [vm_compute; reflexivity|]. split; [vm_compute; lia|].
  apply (playwright_recycle_leaves_page_open 5000 Recycle.sample_instance).
  - vm_compute. reflexivity.
  - vm_compute. lia.
Defined.

(** The pages of the sample instance after one recycle by browser.ts:
    page 0 stays open beside the new page 1. *)
Example playwright_recycle_sample :
  Recycle.Playwright.recycleBrowserInstance Recycle.no_failures 5000 Recycle.sample_instance
  = Recycle.Recycled (Recycle.mkInstance
      (Recycle.mkContext [(0%nat, true); (1%nat, true)] [] [] true true 2) 1 5000 0 0).
Proof. vm_compute. reflexivity. Qed.

(* ================================================================== *)
(** * The request queue: bound and order *)

Lemma subseq_refl {A} (l : list A) : subseq l l.
Proof. induction l; constructor; auto. Qed.

Lemma subseq_length {A} (l l' : list A) : subseq l l' -> (List.length l <= List.length l')%nat.
Proof. induction 1; simpl; lia. Qed.

Lemma subseq_in {A} (l l' : list A) x : subseq l l' -> In x l -> In x l'.
Proof. induction 1; simpl; tauto. Qed.

Lemma subseq_map {A B} (f : A -> B) l l' : subseq l l' -> subseq (map f l) (map f l').
Proof. induction 1; simpl; constructor; auto. Qed.

Lemma subseq_sorted {A} (R : A -> A -> Prop) l l' :
  subseq l l' -> StronglySorted R l' -> StronglySorted R l.
Proof.
  induction 1; intros Hs; [constructor| |].
  - inversion Hs; subst. constructor; [auto|].
    rewrite Forall_forall in *. intros y Hy. apply H3. eapply subseq_in; eauto.
  - inversion Hs; auto.
Qed.

Lemma remove_first_subseq r q q' : remove_first r q = Some q' -> subseq q' q.
Proof.
  revert q'. induction q as [|e q IH]; simpl; intros q' H; [discriminate|].
  destruct (Nat.eqb (fst e) r).
  - injection H as <-. constructor. apply subseq_refl.
  - destruct (remove_first r q) as [q0|] eqn:E; [|discriminate].
    injection H as <-. constructor. apply IH. reflexivity.
Qed.

Lemma shift_settle_queue cfg now o s :
  subseq (requestQueue (shift_settle cfg now o s)) (requestQueue s)
  /\ nextReq (shift_settle cfg now o s) = nextReq s.
Proof.
  unfold shift_settle. destruct (requestQueue s) as [|[r t] q] eqn:E.
  - rewrite E. split; [constructor | reflexivity].
  - destruct (settle_fields cfg now r o (set_queue s q)) as [Q [_ N]].
    rewrite Q, N. simpl. split; [constructor; apply subseq_refl | reflexivity].
Qed.

Lemma shift_settle_queue_from cfg now o s0 s :
  requestQueue s0 = requestQueue s -> nextReq s0 = nextReq s ->
  subseq (requestQueue (shift_settle cfg now o s0)) (requestQueue s)
  /\ nextReq (shift_settle cfg now o s0) = nextReq s.
Proof. intros Q N. rewrite <- Q, <- N. apply shift_settle_queue. Qed.

Lemma resume_queue cfg k now c s s' :
  resume cfg k now c s = Some s' ->
  subseq (requestQueue s') (requestQueue s) /\ nextReq s' = nextReq s.
Proof.
  unfold resume. intros H.
  destruct (nth_error (tasks s) k) as [[| |id]|]; [| |destruct c|discriminate].
  - destruct (find_live _) as [i|].
    + injection H as <-. apply shift_settle_queue_from; reflexivity.
    + destruct (_ <? _).
      * injection H as <-. split; [apply subseq_refl | reflexivity].
      * destruct (oldest_instance _); injection H as <-;
          [split; [apply subseq_refl | reflexivity] | apply shift_settle_queue_from; reflexivity].
  - destruct c; injection H as <-; apply shift_settle_queue_from; reflexivity.
  - injection H as <-; apply shift_settle_queue_from; reflexivity.
  - injection H as <-; apply shift_settle_queue_from; reflexivity.
  - injection H as <-; apply shift_settle_queue_from; reflexivity.
Qed.

(** How one step changes the queue: entries leave it, or [acquirePage]
    appends one entry for the next request id, below [maxQueueSize]. *)
Lemma step_queue v cfg s e s' :
  step v cfg s e = Some s' ->
  (subseq (requestQueue s') (requestQueue s) /\ (nextReq s <= nextReq s')%nat)
  \/ (exists now, requestQueue s' = (requestQueue s ++ [(nextReq s, now)])%list
      /\ nextReq s' = S (nextReq s)
      /\ Z.of_nat (List.length (requestQueue s)) < maxQueueSize cfg).
Proof.
  destruct e as [now|r now|k now c|now|now]; simpl; intros H.
  - injection H as <-. unfold acquirePage.
    destruct (CBState_eqb _ _).
    + left. destruct (settle_fields cfg now (nextReq s) (Rejected "Circuit breaker is open, requests are blocked")
        (mkPool (pool s) (requestQueue s) (tasks s) (circuitBreaker s) (started s) (settled s)
           (nextInst s) (S (nextReq s)))) as [Q [_ N]].
      rewrite Q, N. simpl. split; [apply subseq_refl | lia].
    + destruct (Z.of_nat (List.length (requestQueue s)) >=? maxQueueSize cfg) eqn:E.
      * left. destruct (settle_fields cfg now (nextReq s) (Rejected "Request queue is full")
          (mkPool (pool s) (requestQueue s) (tasks s) (circuitBreaker s) (started s) (settled s)
             (nextInst s) (S (nextReq s)))) as [Q [_ N]].
        rewrite Q, N. simpl. split; [apply subseq_refl | lia].
      * right. exists now. simpl. split; [reflexivity|]. split; [reflexivity|].
        rewrite Z.geb_leb, Z.leb_gt in E. exact E.
  - destruct (start_time s r); [|discriminate]. destruct (_ <=? _); [|discriminate].
    injection H as <-. left. destruct v; simpl.
    + unfold queueTimeout_playwright.
      destruct (remove_first r (requestQueue s)) as [q|] eqn:E;
        [|split; [apply subseq_refl | lia]].
      destruct (settle_fields cfg now r (Rejected "Request queue timeout") (set_queue s q)) as [Q [_ N]].
      rewrite Q, N. simpl. split; [eapply remove_first_subseq; exact E | lia].
    + unfold queueTimeout_patchright.
      destruct (settle_fields cfg now r (Rejected "Operation timed out") s) as [Q [_ N]].
      rewrite Q, N. split; [apply subseq_refl | lia].
  - left. destruct (resume_queue cfg k now c s s' H) as [Q N]. split; [exact Q | lia].
  - injection H as <-. left. split; [apply subseq_refl | simpl; lia].
  - injection H as <-. left. split; [apply subseq_refl | simpl; lia].
Qed.

Lemma sorted_snoc (l : list nat) x :
  StronglySorted lt l -> Forall (fun y => (y < x)%nat) l -> StronglySorted lt (l ++ [x]).
Proof.
  induction l as [|a l IH]; simpl; intros Hs Hf.
  - repeat constructor.
  - inversion Hs; subst. inversion Hf; subst. constructor; [auto|].
    apply Forall_app. split; [assumption | constructor; [assumption | constructor]].
Qed.

(** The queue holds request ids in the order the requests arrived, all
    below the next id. *)
Definition QOrder (s : PoolState) : Prop :=
  StronglySorted lt (queue_ids s) /\ Forall (fun r => (r < nextReq s)%nat) (queue_ids s).

Lemma QOrder_reachable v cfg s : reachable v cfg s -> QOrder s.
Proof.
  induction 1 as [now|s e s' _ [Hs Hf] H].
  - split; constructor.
  - unfold QOrder, queue_ids in *.
    destruct (step_queue v cfg s e s' H) as [[Q N] | (now & Q & N & _)].
    + split.
      * eapply subseq_sorted; [apply subseq_map; exact Q | exact Hs].
      * rewrite Forall_forall in *. intros y Hy.
        specialize (Hf y (subseq_in _ _ _ (subseq_map fst _ _ Q) Hy)). lia.
    + rewrite Q, N, map_app. simpl. split.
      * apply sorted_snoc; assumption.
      * apply Forall_app. split; [|repeat constructor].
        rewrite Forall_forall in *. intros y Hy. specialize (Hf y Hy). lia.
Qed.

(** Both versions: in every reachable state of the pool the request queue
    holds at most [maxQueueSize] entries (none when it is not positive):
    [acquirePage] refuses a request once the queue has reached the size,
    and every other step only takes entries out. *)
Theorem queue_within_maxQueueSize v cfg s :
  reachable v cfg s -> Z.of_nat (List.length (requestQueue s)) <= Z.max 0 (maxQueueSize cfg).
Proof.
  induction 1 as [now|s e s' _ IH H]; [simpl; lia|].
  destruct (step_queue v cfg s e s' H) as [[Q _] | (now & Q & _ & L)].
  - pose proof (subseq_length _ _ Q). lia.
  - rewrite Q, length_app. simpl. lia.
Qed.

Lemma queue_within_maxQueueSize_witness :
  reachable Playwright config_src (acquirePage config_src 0 (initialPool 0))
  /\ Z.of_nat (List.length (requestQueue (acquirePage config_src 0 (initialPool 0))))
     <= Z.max 0 (maxQueueSize config_src).
Proof.
  assert (R : reachable Playwright config_src (acquirePage config_src 0 (initialPool 0))).
  { apply (reach_step Playwright config_src (initialPool 0) (EvAcquire 0)); [apply reach_init | reflexivity]. }
  split; [exact R | apply (queue_within_maxQueueSize Playwright config_src _ R)].
Defined.

(** browser.ts: the entry at the head of the queue, which [processQueue]
    serves next, is the request that has waited longest: its promise is
    pending, and every pending request has an id at least as large. *)
Theorem playwright_queue_serves_oldest cfg s r t q :
  reachable Playwright cfg s -> requestQueue s = (r, t) :: q ->
  pending s r /\ (forall r', pending s r' -> (r <= r')%nat).
Proof.
  intros Hr Hq. destruct (QInv_reachable cfg s Hr) as [_ [HP _]].
  destruct (QOrder_reachable Playwright cfg s Hr) as [Hs _].
  unfold queue_ids in *. rewrite Hq in HP, Hs. simpl in HP, Hs.
  split; [apply HP; left; reflexivity|].
  intros r' Hp. apply HP in Hp. destruct Hp as [<-|Hin]; [lia|].
  inversion Hs; subst. rewrite Forall_forall in H2. specialize (H2 r' Hin). lia.
Qed.

Lemma playwright_queue_serves_oldest_witness :
  reachable Playwright config_src (acquirePage config_src 0 (initialPool 0))
  /\ requestQueue (acquirePage config_src 0 (initialPool 0)) = [(0%nat, 0)]
  /\ pending (acquirePage config_src 0 (initialPool 0)) 0
  /\ (forall r', pending (acquirePage config_src 0 (initialPool 0)) r' -> (0 <= r')%nat).
Proof.
  assert (R : reachable Playwright config_src (acquirePage config_src 0 (initialPool 0))).
  { apply (reach_step Playwright config_src (initialPool 0) (EvAcquire 0)); [apply reach_init | reflexivity]. }
  split; [exact R|]. split; [reflexivity|].
  apply (playwright_queue_serves_oldest config_src _ 0 0 [] R). reflexivity.
Defined.

(* ================================================================== *)
(** * The circuit breaker inside the pool *)

(** Both versions: an OPEN breaker stays OPEN through every step of the
    pool (acquisitions, queue timeouts, resumed [processQueue] calls,
    sweeps), whether the step reports a success or a failure; only a
    monitoring tick more than [resetTimeout] after the last failure
    takes it out of OPEN. *)
Theorem breaker_leaves_open_only_by_monitor v cfg s e s' :
  step v cfg s e = Some s' ->
  state (circuitBreaker s) = OPEN ->
  (forall t, e = EvMonitor t -> t - lastFailure (circuitBreaker s) <= resetTimeout cfg) ->
  state (circuitBreaker s') = OPEN.
Proof.
  intros H Ho Hm.
  destruct (step_settles_one v cfg s e s' H) as [[t ->] | [[_ Hc] | (r & o & _ & Hc)]].
  - simpl in H. injection H as <-. simpl. unfold circuitBreakerMonitorTick.
    rewrite Ho. simpl.
    replace (t - lastFailure (circuitBreaker s) >? resetTimeout cfg) with false;
      [exact Ho|].
    symmetry. rewrite Z.gtb_ltb. apply Z.ltb_ge. specialize (Hm t eq_refl). lia.
  - rewrite Hc. exact Ho.
  - rewrite Hc. apply update_keeps_open, Ho.
Qed.

Lemma breaker_leaves_open_only_by_monitor_witness :
  step Playwright config_src open_pool (EvAcquire 500) = Some (acquirePage config_src 500 open_pool)
  /\ state (circuitBreaker open_pool) = OPEN
  /\ state (circuitBreaker (acquirePage config_src 500 open_pool)) = OPEN.
Proof.
  split; [reflexivity|]. split; [reflexivity|].
  apply (breaker_leaves_open_only_by_monitor Playwright config_src open_pool (EvAcquire 500)).
  - reflexivity.
  - reflexivity.
  - intros t F. discriminate F.
Defined.

(** Both versions: an OPEN breaker whose last failure is more than
    [resetTimeout] old is moved to HALF_OPEN by the monitoring tick, and
    the next reported success closes it with the failure count at 0. *)
Theorem breaker_recovers_after_reset cfg cb t t' :
  state cb = OPEN -> t - lastFailure cb > resetTimeout cfg ->
  state (circuitBreakerMonitorTick cfg t cb) = HALF_OPEN
  /\ state (updateCircuitBreaker cfg t' true (circuitBreakerMonitorTick cfg t cb)) = CLOSED
  /\ failures (updateCircuitBreaker cfg t' true (circuitBreakerMonitorTick cfg t cb)) = 0
  /\ lastSuccess (updateCircuitBreaker cfg t' true (circuitBreakerMonitorTick cfg t cb)) = t'.
Proof.
  intros Ho Ht. unfold circuitBreakerMonitorTick. rewrite Ho. simpl.
  replace (t - lastFailure cb >? resetTimeout cfg) with true
    by (symmetry; rewrite Z.gtb_ltb; apply Z.ltb_lt; lia).
  repeat split.
Qed.

Lemma breaker_recovers_after_reset_witness :
  state (circuitBreaker open_pool) = OPEN
  /\ 15101 - lastFailure (circuitBreaker open_pool) > resetTimeout config_src
  /\ state (circuitBreakerMonitorTick config_src 15101 (circuitBreaker open_pool)) = HALF_OPEN
  /\ state (updateCircuitBreaker config_src 15200 true
       (circuitBreakerMonitorTick config_src 15101 (circuitBreaker open_pool))) = CLOSED
  /\ failures (updateCircuitBreaker config_src 15200 true
       (circuitBreakerMonitorTick config_src 15101 (circuitBreaker open_pool))) = 0
  /\ lastSuccess (updateCircuitBreaker config_src 15200 true
       (circuitBreakerMonitorTick config_src 15101 (circuitBreaker open_pool))) = 15200.
Proof.
  split; [reflexivity|]. split; [vm_compute; reflexivity|].
  apply breaker_recovers_after_reset; [reflexivity | vm_compute; reflexivity].
Defined.

(* ================================================================== *)
(** * processQueue: what it hands out *)

(** Both versions: when the instance [processQueue] finds after the sweep
    exists, it was in the pool, its page is open, its [failureCount] is
    below 3, it was used within [2 * maxPageLoadTime] and its memory is
    within [maxMemoryMB]. *)
Theorem handed_out_instance_is_healthy cfg now p i :
  find_live (cleanupExpiredInstances cfg now p) = Some i ->
  In i p /\ pageClosed i = false /\ failureCount i < 3
  /\ now - lastUsed i <= maxPageLoadTime cfg * 2
  /\ memoryUsage i <= maxMemoryMB cfg * 1024 * 1024.
Proof.
  unfold find_live, cleanupExpiredInstances. intros H.
  destruct (find_some _ _ H) as [Hin Hl].
  apply filter_In in Hin as [Hin He].
  apply andb_prop in Hl as [Hc Hf]. apply negb_true_iff in Hc.
  apply Z.ltb_lt in Hf. unfold expired in He.
  apply negb_true_iff, orb_false_iff in He as [He Hm].
  apply orb_false_iff in He as [Ht Hfc].
  rewrite Z.gtb_ltb, Z.ltb_ge in Ht, Hm.
  repeat split; auto; lia.
Qed.

Lemma handed_out_instance_is_healthy_witness :
  find_live (cleanupExpiredInstances config_src 1000
    [mkInst 0 0 0 3 false; mkInst 1 500 0 0 false]) = Some (mkInst 1 500 0 0 false)
  /\ (In (mkInst 1 500 0 0 false) [mkInst 0 0 0 3 false; mkInst 1 500 0 0 false]
      /\ pageClosed (mkInst 1 500 0 0 false) = false /\ failureCount (mkInst 1 500 0 0 false) < 3
      /\ 1000 - lastUsed (mkInst 1 500 0 0 false) <= maxPageLoadTime config_src * 2
      /\ memoryUsage (mkInst 1 500 0 0 false) <= maxMemoryMB config_src * 1024 * 1024).
Proof.
  split; [reflexivity|].
  apply handed_out_instance_is_healthy. reflexivity.
Defined.

(** Both versions: when [recycleBrowserInstance] fails and its [catch]
    replaces the oldest instance by a new one (cleaning the old one up),
    [processQueue] still resolves the waiting request with the old
    instance's page: the instance it hands out is no longer in the pool. *)
Theorem recycle_fallback_hands_out_removed_instance cfg k now m s id r t q :
  nth_error (tasks s) k = Some (AfterRecycle id) ->
  requestQueue s = (r, t) :: q -> is_settled s r = false -> nextInst s <> id ->
  exists s', resume cfg k now (Replaced m) s = Some s'
    /\ settled s' = (r, Resolved id) :: settled s
    /\ ~ In id (map inst_id (pool s'))
    /\ List.length (pool s') = List.length (pool s).
Proof.
  intros Hk Hq Hs Hn. unfold resume. rewrite Hk. eexists. split; [reflexivity|].
  unfold shift_settle. simpl. rewrite Hq. unfold settle. simpl.
  unfold is_settled in *. simpl. rewrite Hs. simpl.
  split; [reflexivity|]. split; [|rewrite length_map; reflexivity].
  rewrite map_map. intros Hin. apply in_map_iff in Hin as [j [Hj _]].
  destruct (Nat.eqb (inst_id j) id) eqn:E; simpl in Hj.
  - apply Hn. exact Hj.
  - apply Nat.eqb_neq in E. apply E. exact Hj.
Qed.

Lemma recycle_fallback_hands_out_removed_instance_witness :
  exists s', resume config_src 0 300 (Replaced "Target closed") recycling_pool = Some s'
    /\ settled s' = (0%nat, Resolved 0) :: settled recycling_pool
    /\ ~ In 0%nat (map inst_id (pool s'))
    /\ List.length (pool s') = List.length (pool recycling_pool).
Proof.
  apply (recycle_fallback_hands_out_removed_instance config_src 0 300 "Target closed"
           recycling_pool 0 0 200 []); try reflexivity.
  intro F. discriminate F.
Defined.

Lemma playwright_queue_timeout_removes_entry_witness :
  exists s', step Playwright config_src (acquirePage config_src 0 (initialPool 0)) (EvTimeout 0 15000) = Some s'
    /\ S (List.length (requestQueue s')) = List.length (requestQueue (acquirePage config_src 0 (initialPool 0)))
    /\ ~ In 0%nat (queue_ids s')
    /\ settled s' = (0%nat, Rejected "Request queue timeout") :: settled (acquirePage config_src 0 (initialPool 0)).
Proof.
  apply (playwright_queue_timeout_removes_entry config_src _ 0 0 15000).
  - apply (reach_step Playwright config_src (initialPool 0) (EvAcquire 0)); [apply reach_init | reflexivity].
  - split; [left; reflexivity | reflexivity].
  - reflexivity.
  - vm_compute. intro F; discriminate F.
Defined.

(* ================================================================== *)
(** * Navigation: bounds, success, sleeps and redirects *)

Lemma nav_loop_goto_le cfg body backoff jit :
  (forall i, (goto_count (fst (body i)) <= 1)%nat) ->
  (forall i d, goto_count (fst (backoff i d)) = 0%nat) ->
  forall f a d, (goto_count (fst (nav_loop cfg body backoff jit f a d)) <= f)%nat.
Proof.
  intros Hb Hw f. induction f as [|f IH]; intros a d; [vm_compute; constructor|].
  rewrite nav_loop_S. destruct (Z.of_nat a <? maxRetries cfg); [|vm_compute; lia].
  pose proof (Hb a) as Ha. destruct (body a) as [es [m|]]; cbn [fst] in *; [|lia].
  destruct (Z.of_nat (S a) >=? maxRetries cfg); cbn [fst]; [lia|].
  set (d' := Z.min (d * 2 + jit a) (maxRetryDelay cfg)).
  pose proof (Hw a d') as Hw'. destruct (backoff a d') as [ws [e|]]; cbn [fst] in *.
  - rewrite goto_count_app. lia.
  - specialize (IH (S a) d'). destruct (nav_loop cfg body backoff jit f (S a) d') as [es' r].
    cbn [fst] in *. rewrite !goto_count_app. lia.
Qed.

Lemma patchright_attempt_goto_le cfg parse env url i :
  (goto_count (fst (Patchright.attempt cfg parse env url i)) <= 1)%nat.
Proof.
  destruct (page_closed env i) eqn:E.
  - unfold Patchright.attempt. rewrite E. unfold goto_count. simpl. lia.
  - rewrite patchright_attempt_one_goto by exact E. lia.
Qed.

(** Both versions: whatever the URL and whatever the page and the network
    do, [safePageNavigation] calls [page.goto] at most [maxRetries] times
    (never when [maxRetries] is not positive). *)
Theorem navigation_goto_at_most_maxRetries cfg parse env url :
  (goto_count (fst (Playwright.safePageNavigation cfg parse env url)) <= Z.to_nat (maxRetries cfg))%nat
  /\ (goto_count (fst (Patchright.safePageNavigation cfg parse env url)) <= Z.to_nat (maxRetries cfg))%nat.
Proof.
  unfold Playwright.safePageNavigation, Patchright.safePageNavigation.
  destruct (url_check cfg parse url) as [p|m]; [|unfold goto_count; simpl; lia].
  split.
  - destruct (addCookies_error env); [unfold goto_count; simpl; lia|].
    pose proof (nav_loop_goto_le cfg (Playwright.attempt cfg parse env url) (Playwright.backoff env)
                  (jitter env) (fun i => ltac:(rewrite playwright_attempt_one_goto; lia))
                  (fun i d => eq_refl) (Z.to_nat (maxRetries cfg)) 0 (initialRetryDelay cfg)) as G.
    destruct (nav_loop _ _ _ _ _ _ _) as [es r]. cbn [fst] in *. rewrite goto_count_cookies. exact G.
  - destruct (page_closed env 0); [unfold goto_count; simpl; lia|]. destruct (addCookies_error env); [unfold goto_count; simpl; lia|].
    pose proof (nav_loop_goto_le cfg (Patchright.attempt cfg parse env url) Patchright.backoff
                  (jitter env) (patchright_attempt_goto_le cfg parse env url)
                  (fun i d => eq_refl) (Z.to_nat (maxRetries cfg)) 0 (initialRetryDelay cfg)) as G.
    destruct (nav_loop _ _ _ _ _ _ _) as [es r]. cbn [fst] in *. rewrite goto_count_cookies. exact G.
Qed.

(** Both versions: with [maxRetries] not positive the retry loop never
    runs, and a URL that passes the check resolves successfully after the
    consent cookies are set, without any navigation. *)
Theorem navigation_without_retries_succeeds_silently cfg parse env url p :
  maxRetries cfg <= 0 -> url_check cfg parse url = inl p ->
  addCookies_error env = None -> page_closed env 0 = false ->
  Playwright.safePageNavigation cfg parse env url
    = ([AddCookies (consentCookies cfg (hostname p))], NavOk)
  /\ Patchright.safePageNavigation cfg parse env url
    = ([AddCookies (consentCookies cfg (hostname p))], NavOk).
Proof.
  intros Hm Hu Ha Hc.
  unfold Playwright.safePageNavigation, Patchright.safePageNavigation.
  rewrite Hu, Ha, Hc. replace (Z.to_nat (maxRetries cfg)) with 0%nat by lia.
  split; reflexivity.
Qed.

Lemma navigation_without_retries_succeeds_silently_witness :
  Playwright.safePageNavigation config_no_retries simple_parse_url env_http500 "http://example.com"
    = ([AddCookies (consentCookies config_no_retries "example.com")], NavOk)
  /\ Patchright.safePageNavigation config_no_retries simple_parse_url env_http500 "http://example.com"
    = ([AddCookies (consentCookies config_no_retries "example.com")], NavOk).
Proof.
  apply (navigation_without_retries_succeeds_silently config_no_retries simple_parse_url env_http500
           "http://example.com" (mkUrl "http:" "example.com")).
  - vm_compute. intro F; discriminate F.
  - vm_compute. reflexivity.
  - reflexivity.
  - reflexivity.
Defined.

Lemma nav_loop_first_success cfg body backoff jit (k : nat) :
  Z.of_nat k < maxRetries cfg ->
  (forall i, (i < k)%nat -> snd (body i) <> None /\ goto_count (fst (body i)) = 1%nat) ->
  snd (body k) = None -> goto_count (fst (body k)) = 1%nat ->
  (forall i d, (i < k)%nat -> snd (backoff i d) = None /\ goto_count (fst (backoff i d)) = 0%nat) ->
  forall f a d, (a <= k)%nat -> (k < a + f)%nat ->
  snd (nav_loop cfg body backoff jit f a d) = NavOk
  /\ goto_count (fst (nav_loop cfg body backoff jit f a d)) = (S k - a)%nat.
Proof.
  intros Hk Hf Hs Hg Hw f. induction f as [|f IH]; intros a d Ha Hl; [lia|].
  rewrite nav_loop_S.
  replace (Z.of_nat a <? maxRetries cfg) with true by (symmetry; apply Z.ltb_lt; lia).
  destruct (Nat.eq_dec a k) as [->|Hne].
  - destruct (body k) as [es r]. cbn [fst snd] in Hs, Hg. subst r.
    cbn [fst snd]. split; [reflexivity | rewrite Hg; lia].
  - destruct (Hf a ltac:(lia)) as [Hm Hga].
    destruct (body a) as [es [m|]]; cbn [fst snd] in Hm, Hga; [|contradiction].
    replace (Z.of_nat (S a) >=? maxRetries cfg) with false
      by (symmetry; rewrite Z.geb_leb; apply Z.leb_gt; lia).
    set (d' := Z.min (d * 2 + jit a) (maxRetryDelay cfg)).
    destruct (Hw a d' ltac:(lia)) as [Hw1 Hw2].
    destruct (backoff a d') as [ws e]. cbn [fst snd] in Hw1, Hw2. subst e.
    destruct (IH (S a) d' ltac:(lia) ltac:(lia)) as [R G].
    destruct (nav_loop cfg body backoff jit f (S a) d') as [es' r']. cbn [fst snd] in *.
    split; [exact R|]. rewrite !goto_count_app. lia.
Qed.

(** Each version: when its attempts before attempt [k] fail, its attempt
    [k] (with [k < maxRetries]) succeeds and the cookies are set (in
    browser.ts: and the backoff sleeps resolve; in part_017: and the page
    stays open), the navigation resolves after exactly [k + 1] calls of
    [page.goto]: no attempt follows a success. The two versions' attempts
    are judged separately, as part_017 re-validates where browser.ts does
    not. *)
Theorem navigation_stops_at_first_success cfg parse env url p (k : nat) :
  Z.of_nat k < maxRetries cfg -> url_check cfg parse url = inl p ->
  addCookies_error env = None ->
  ((forall i, backoff_wait_error env i = None) ->
   (forall i, (i < k)%nat -> snd (Playwright.attempt cfg parse env url i) <> None) ->
   snd (Playwright.attempt cfg parse env url k) = None ->
   snd (Playwright.safePageNavigation cfg parse env url) = NavOk
   /\ goto_count (fst (Playwright.safePageNavigation cfg parse env url)) = S k)
  /\
  ((forall i, page_closed env i = false) ->
   (forall i, (i < k)%nat -> snd (Patchright.attempt cfg parse env url i) <> None) ->
   snd (Patchright.attempt cfg parse env url k) = None ->
   snd (Patchright.safePageNavigation cfg parse env url) = NavOk
   /\ goto_count (fst (Patchright.safePageNavigation cfg parse env url)) = S k).
Proof.
  intros Hk Hu Ha. split.
  - intros Hw F1 S1.
    unfold Playwright.safePageNavigation. rewrite Hu, Ha.
    destruct (nav_loop_first_success cfg (Playwright.attempt cfg parse env url) (Playwright.backoff env)
                (jitter env) k Hk
                (fun i Hi => conj (F1 i Hi) (playwright_attempt_one_goto cfg parse env url i))
                S1 (playwright_attempt_one_goto cfg parse env url k)
                (fun i d _ => conj (Hw i) eq_refl)
                (Z.to_nat (maxRetries cfg)) 0 (initialRetryDelay cfg) ltac:(lia) ltac:(lia)) as [R1 G1].
    destruct (nav_loop cfg (Playwright.attempt cfg parse env url) _ _ _ _ _) as [es1 r1].
    cbn [fst snd] in *. rewrite goto_count_cookies. split; [exact R1|lia].
  - intros Hc F2 S2.
    unfold Patchright.safePageNavigation. rewrite Hu, Ha, Hc.
    destruct (nav_loop_first_success cfg (Patchright.attempt cfg parse env url) Patchright.backoff
                (jitter env) k Hk
                (fun i Hi => conj (F2 i Hi) (patchright_attempt_one_goto cfg parse env url i (Hc i)))
                S2 (patchright_attempt_one_goto cfg parse env url k (Hc k))
                (fun i d _ => conj eq_refl eq_refl)
                (Z.to_nat (maxRetries cfg)) 0 (initialRetryDelay cfg) ltac:(lia) ltac:(lia)) as [R2 G2].
    destruct (nav_loop cfg (Patchright.attempt cfg parse env url) _ _ _ _ _) as [es2 r2].
    cbn [fst snd] in *. rewrite goto_count_cookies. split; [exact R2|lia].
Qed.

Lemma navigation_stops_at_first_success_witness :
  (snd (Playwright.safePageNavigation config_src simple_parse_url env_recovers "http://example.com") = NavOk
   /\ goto_count (fst (Playwright.safePageNavigation config_src simple_parse_url env_recovers "http://example.com")) = 2%nat)
  /\ (snd (Patchright.safePageNavigation config_src simple_parse_url env_revalidates "http://example.com") = NavOk
   /\ goto_count (fst (Patchright.safePageNavigation config_src simple_parse_url env_revalidates "http://example.com")) = 1%nat).
Proof.
  split.
  - destruct (navigation_stops_at_first_success config_src simple_parse_url env_recovers
                "http://example.com" (mkUrl "http:" "example.com") 1) as [H _].
    + vm_compute. reflexivity.
    + vm_compute. reflexivity.
    + reflexivity.
    + apply H.
      * intros i. reflexivity.
      * intros i Hi. destruct i; [|lia]. vm_compute. intro F; discriminate F.
      * vm_compute. reflexivity.
  - destruct (navigation_stops_at_first_success config_src simple_parse_url env_revalidates
                "http://example.com" (mkUrl "http:" "example.com") 0) as [_ H].
    + vm_compute. reflexivity.
    + vm_compute. reflexivity.
    + reflexivity.
    + apply H.
      * intros i. reflexivity.
      * intros i Hi. lia.
      * vm_compute. reflexivity.
Defined.

Lemma nav_loop_waits cfg body backoff jit :
  (forall i x, ~ In (WaitMs x) (fst (body i))) ->
  (forall i d x, In (WaitMs x) (fst (backoff i d)) -> x = d) ->
  (forall i, 0 <= jit i) -> 0 <= maxRetryDelay cfg ->
  forall f a d, 0 <= d -> forall x, In (WaitMs x) (fst (nav_loop cfg body backoff jit f a d)) ->
  0 <= x <= maxRetryDelay cfg.
Proof.
  intros Hb Hw Hj HM f. induction f as [|f IH]; intros a d Hd x Hx; [simpl in Hx; contradiction|].
  rewrite nav_loop_S in Hx. destruct (Z.of_nat a <? maxRetries cfg); [|simpl in Hx; contradiction].
  pose proof (Hb a x) as Hba. destruct (body a) as [es [m|]]; cbn [fst] in *; [|contradiction].
  destruct (Z.of_nat (S a) >=? maxRetries cfg); cbn [fst] in Hx; [contradiction|].
  set (d' := Z.min (d * 2 + jit a) (maxRetryDelay cfg)) in *.
  assert (Hd' : 0 <= d' <= maxRetryDelay cfg) by (subst d'; specialize (Hj a); lia).
  pose proof (Hw a d' x) as Hwa. destruct (backoff a d') as [ws [e|]]; cbn [fst] in *.
  - apply in_app_or in Hx as [H|H]; [contradiction|]. rewrite (Hwa H). exact Hd'.
  - specialize (IH (S a) d' ltac:(lia) x).
    destruct (nav_loop cfg body backoff jit f (S a) d') as [es' r]. cbn [fst] in *.
    apply in_app_or in Hx as [H|H]; [contradiction|].
    apply in_app_or in H as [H|H]; [rewrite (Hwa H); exact Hd' | exact (IH H)].
Qed.

Lemma playwright_attempt_no_wait cfg parse env url i x :
  ~ In (WaitMs x) (fst (Playwright.attempt cfg parse env url i)).
Proof.
  unfold Playwright.attempt.
  destruct (goto_result env i); [| |destruct (_ >=? _)]; simpl; intuition discriminate.
Qed.

(** browser.ts: every sleep of a navigation is a backoff delay between 0
    and [maxRetryDelay], given a non-negative initial delay, cap and
    jitter ([Math.random() * 1000]): the doubling never overshoots the
    cap. *)
Theorem playwright_backoff_within_maxRetryDelay cfg parse env url x :
  0 <= initialRetryDelay cfg -> 0 <= maxRetryDelay cfg -> (forall i, 0 <= jitter env i) ->
  In (WaitMs x) (fst (Playwright.safePageNavigation cfg parse env url)) ->
  0 <= x <= maxRetryDelay cfg.
Proof.
  intros H0 HM Hj Hx. unfold Playwright.safePageNavigation in Hx.
  destruct (url_check cfg parse url) as [p|m]; [|simpl in Hx; contradiction].
  destruct (addCookies_error env); [simpl in Hx; intuition discriminate|].
  pose proof (nav_loop_waits cfg (Playwright.attempt cfg parse env url) (Playwright.backoff env)
                (jitter env) (playwright_attempt_no_wait cfg parse env url)) as W.
  destruct (nav_loop _ _ _ _ _ _ _) eqn:E. simpl in Hx.
  destruct Hx as [F|Hx]; [discriminate F|].
  apply (W (fun i d x' H => ltac:(simpl in H; destruct H as [H|[]]; injection H; auto))
           Hj HM (Z.to_nat (maxRetries cfg)) 0%nat (initialRetryDelay cfg) H0 x).
  rewrite E. exact Hx.
Qed.

Lemma playwright_backoff_within_maxRetryDelay_witness :
  In (WaitMs 1500) (fst (Playwright.safePageNavigation config_src simple_parse_url env_http500 "http://example.com"))
  /\ 0 <= 1500 <= maxRetryDelay config_src.
Proof.
  assert (H : In (WaitMs 1500) (fst (Playwright.safePageNavigation config_src simple_parse_url env_http500 "http://example.com")))
    by (vm_compute; right; right; left; reflexivity).
  split; [exact H|].
  apply (playwright_backoff_within_maxRetryDelay config_src simple_parse_url env_http500 "http://example.com" 1500).
  - vm_compute. intro F; discriminate F.
  - vm_compute. intro F; discriminate F.
  - intros i. vm_compute. intro F; discriminate F.
  - exact H.
Defined.

(* ------------------------------------------------------------------ *)
(** * Consent cookies: the general domain *)

Lemma split_on_nonempty sep s : split_on sep s <> [].
Proof.
  induction s as [|c s IH]; simpl; [discriminate|].
  destruct (split_on sep s); [contradiction|].
  destruct (Ascii.eqb c sep); discriminate.
Qed.

Lemma split_on_append_sep sep s t :
  split_on sep (s ++ String sep t) = (split_on sep s ++ split_on sep t)%list.
Proof.
  induction s as [|c s IH]; simpl.
  - rewrite Ascii.eqb_refl. destruct (split_on sep t) eqn:E.
    + exfalso; exact (split_on_nonempty sep t E).
    + reflexivity.
  - rewrite IH. destruct (split_on sep s) eqn:E.
    + exfalso; exact (split_on_nonempty sep s E).
    + simpl. destruct (Ascii.eqb c sep); reflexivity.
Qed.

Lemma slice_last2_app {A} (l : list A) a b : slice_last2 (l ++ [a; b])%list = [a; b].
Proof.
  unfold slice_last2. rewrite length_app. simpl.
  replace (List.length l + 2 - 2)%nat with (List.length l) by lia.
  rewrite skipn_app, skipn_all, Nat.sub_diag. reflexivity.
Qed.

Lemma string_length_app s t : String.length (s ++ t) = (String.length s + String.length t)%nat.
Proof. induction s as [|c s IH]; simpl; [reflexivity|]. rewrite IH. reflexivity. Qed.

(** For a host ending in [.co.uk] that matches a consent region, the
    [generalDomain] cookie ([domain.split('.').slice(-2).join('.')]) is
    set on [.co.uk] itself, not on the site's registrable domain. *)
Theorem co_uk_host_gets_co_uk_cookie cfg h :
  existsb (fun region => includes (h ++ ".co.uk") region) (CONSENT_REGIONS cfg) = true ->
  consentCookies cfg (h ++ ".co.uk") =
  [consent_cookie ".google.com"; consent_cookie ("." ++ h ++ ".co.uk");
   consent_cookie ".co.uk"].
Proof.
  intros Hr. unfold consentCookies. rewrite Hr.
  assert (Hne : String.eqb (h ++ ".co.uk") "google.com" = false).
  { apply String.eqb_neq. intros E.
    assert (L := f_equal String.length E). rewrite string_length_app in L. simpl in L.
    destruct h as [|a [|b [|c [|d [|e h]]]]]; simpl in L; try lia.
    simpl in E. discriminate E. }
  rewrite Hne. simpl andb. cbn iota.
  change (h ++ ".co.uk") with (h ++ String "." "co.uk").
  rewrite split_on_append_sep. change (split_on "." "co.uk") with ["co"; "uk"].
  rewrite slice_last2_app. reflexivity.
Qed.

Lemma co_uk_host_gets_co_uk_cookie_witness :
  existsb (fun region => includes ("www.google" ++ ".co.uk") region) (CONSENT_REGIONS config_src) = true /\
  consentCookies config_src ("www.google" ++ ".co.uk") =
  [consent_cookie ".google.com"; consent_cookie ("." ++ "www.google" ++ ".co.uk");
   consent_cookie ".co.uk"].
Proof.
  split; [vm_compute; reflexivity|].
  apply co_uk_host_gets_co_uk_cookie. vm_compute. reflexivity.
Defined.

(* ------------------------------------------------------------------ *)
(** * Performance monitoring: memory and failures *)

Section PerformanceMonitoring.

Variables (cfg : Config) (now : Z) (probe : nat -> MemProbe) (recycle : nat -> Completion).



Hypothesis memory_nonneg : 0 <= maxMemoryMB cfg.
Hypothesis probes_answer : forall id, probe id <> ProbeThrows.
Hypothesis recycling_completes : forall id m, recycle id <> Threw m.



End PerformanceMonitoring.



(** An open page whose [page.evaluate] throws: part_017 increments the
    instance's [failureCount] (so at 2 failures the next sweep of
    [cleanupExpiredInstances] removes it); browser.ts leaves the instance
    as it was. *)
Theorem unreadable_page_counts_as_failure_only_in_patchright cfg now t probe recycle next pre i post :
  pageClosed i = false ->
  probe (inst_id i) = ProbeThrows ->
  let i' := mkInst (inst_id i) (lastUsed i) (memoryUsage i) (failureCount i + 1) false in
  nth_error (fst (performanceTick_patchright cfg now probe recycle next (pre ++ i :: post)))
            (List.length pre) = Some i' /\
  nth_error (fst (performanceTick_playwright cfg now probe recycle next (pre ++ i :: post)))
            (List.length pre) = Some i /\
  (2 <= failureCount i -> expired cfg t i' = true).
Proof.
  intros Hc Hp i'. split; [|split].
  - revert next; induction pre as [|a pre IH]; intros next; simpl.
    + rewrite Hc, Hp.
      destruct (performanceTick_patchright cfg now probe recycle next post); simpl.
      reflexivity.
    + destruct (if pageClosed a then _ else _) as [a' n'].
      specialize (IH n').
      destruct (performanceTick_patchright cfg now probe recycle n' (pre ++ i :: post)).
      exact IH.
  - revert next; induction pre as [|a pre IH]; intros next; simpl.
    + rewrite Hp.
      destruct (performanceTick_playwright cfg now probe recycle next post); reflexivity.
    + destruct (match probe (inst_id a) with
                | ProbeThrows => _ | ProbeMemory m => _ end) as [a' n'].
      specialize (IH n').
      destruct (performanceTick_playwright cfg now probe recycle n' (pre ++ i :: post)).
      exact IH.
  - intros H2. unfold expired, i'; simpl.
    assert (E : (failureCount i + 1 >=? 3) = true) by (rewrite Z.geb_le; lia).
    rewrite E, orb_true_r. reflexivity.
Qed.

Lemma unreadable_page_counts_as_failure_only_in_patchright_witness :
  let probe := fun _ : nat => ProbeThrows in
  let recycle := fun _ : nat => Done in
  let i' := mkInst 0 1000 4096 3 false in
  pageClosed stuck_instance = false /\
  probe (inst_id stuck_instance) = ProbeThrows /\
  nth_error (fst (performanceTick_patchright config_src 5000 probe recycle 1 ([] ++ stuck_instance :: [])))
            0 = Some i' /\
  nth_error (fst (performanceTick_playwright config_src 5000 probe recycle 1 ([] ++ stuck_instance :: [])))
            0 = Some stuck_instance /\
  (2 <= failureCount stuck_instance -> expired config_src 6000 i' = true).
Proof.
  intros probe recycle i'.
  split; [reflexivity|]. split; [reflexivity|].
  exact (unreadable_page_counts_as_failure_only_in_patchright config_src 5000 6000 probe recycle 1
           [] stuck_instance [] eq_refl eq_refl).
Defined.

(* ------------------------------------------------------------------ *)
(** * Navigation: how often the page is validated *)

Lemma count_of_app {A : Type} (p : A -> bool) (l l' : list A) :
  count_of p (l ++ l') = (count_of p l + count_of p l')%nat.
Proof. unfold count_of. rewrite filter_app, length_app. reflexivity. Qed.

Lemma nav_loop_count_le (p : NavEffect -> bool) (c : nat) cfg body backoff jit :
  (forall i, (count_of p (fst (body i)) <= c)%nat) ->
  (forall i d, count_of p (fst (backoff i d)) = 0%nat) ->
  forall f a d, (count_of p (fst (nav_loop cfg body backoff jit f a d)) <= c * f)%nat.
Proof.
  intros Hb Hw f. induction f as [|f IH]; intros a d; [unfold count_of; simpl; lia|].
  rewrite nav_loop_S. destruct (Z.of_nat a <? maxRetries cfg); [|unfold count_of; simpl; lia].
  pose proof (Hb a) as Ha. destruct (body a) as [es [m|]]; cbn [fst] in *; [|lia].
  destruct (Z.of_nat (S a) >=? maxRetries cfg); cbn [fst]; [lia|].
  set (d' := Z.min (d * 2 + jit a) (maxRetryDelay cfg)).
  pose proof (Hw a d') as Hw'. destruct (backoff a d') as [ws [e|]]; cbn [fst] in *.
  - rewrite count_of_app. lia.
  - specialize (IH (S a) d'). destruct (nav_loop cfg body backoff jit f (S a) d') as [es' r].
    cbn [fst] in *. rewrite !count_of_app. lia.
Qed.

Lemma validation_loop_validates_le env i j fuel :
  (count_of is_validate (fst (Patchright.validation_loop env i j fuel)) <= fuel)%nat.
Proof.
  revert j; induction fuel as [|fuel IH]; intros j; simpl; [unfold count_of; simpl; lia|].
  destruct (isValid (validation env i j)); [unfold count_of; simpl; lia|].
  destruct (negb (includes (error_message (error (validation env i j))) "Bot protection")).
  - destruct fuel as [|fuel'].
    + unfold count_of; simpl. lia.
    + specialize (IH (S j)).
      destruct (Patchright.validation_loop env i (S j) (S fuel')) as [es r]. unfold count_of in *; simpl in *. lia.
  - unfold count_of; simpl. lia.
Qed.

Lemma patchright_attempt_validates_le cfg parse env url i :
  (count_of is_validate (fst (Patchright.attempt cfg parse env url i)) <= 3)%nat.
Proof.
  unfold Patchright.attempt.
  destruct (page_closed env i); [unfold count_of; simpl; lia|].
  destruct (goto_result env i) as [m| |st txt]; [unfold count_of; simpl; lia|unfold count_of; simpl; lia|].
  destruct (st >=? 400); [unfold count_of; simpl; lia|].
  pose proof (validation_loop_validates_le env i 0 3) as H.
  destruct (Patchright.validation_loop env i 0 3) as [es r]. unfold count_of in *; simpl in *. lia.
Qed.

Lemma playwright_attempt_validates_le cfg parse env url i :
  (count_of is_validate (fst (Playwright.attempt cfg parse env url i)) <= 1)%nat.
Proof.
  unfold Playwright.attempt.
  destruct (goto_result env i) as [m| |st txt]; [unfold count_of; simpl; lia|unfold count_of; simpl; lia|].
  destruct (st >=? 400); unfold count_of; simpl; lia.
Qed.

(** A navigation validates the page at most [maxRetries] times in
    browser.ts (once per attempt) and at most [3 * maxRetries] times in
    part_017 (its [for (let i = 0; i < 3; i++)] loop, per attempt). *)
Theorem navigation_validations_bounded cfg parse env url :
  (count_of is_validate (fst (Playwright.safePageNavigation cfg parse env url))
     <= Z.to_nat (maxRetries cfg))%nat
  /\ (count_of is_validate (fst (Patchright.safePageNavigation cfg parse env url))
     <= 3 * Z.to_nat (maxRetries cfg))%nat.
Proof.
  unfold Playwright.safePageNavigation, Patchright.safePageNavigation.
  destruct (url_check cfg parse url) as [p|m]; [|unfold count_of; simpl; lia].
  split.
  - destruct (addCookies_error env); [unfold count_of; simpl; lia|].
    pose proof (nav_loop_count_le is_validate 1 cfg (Playwright.attempt cfg parse env url)
                  (Playwright.backoff env) (jitter env)
                  (playwright_attempt_validates_le cfg parse env url)
                  (fun i d => eq_refl) (Z.to_nat (maxRetries cfg)) 0 (initialRetryDelay cfg)) as G.
    destruct (nav_loop _ _ _ _ _ _ _) as [es r]. cbn [fst] in *.
    change (AddCookies (consentCookies cfg (hostname p)) :: es)
      with ([AddCookies (consentCookies cfg (hostname p))] ++ es)%list.
    rewrite count_of_app. change (count_of is_validate [AddCookies (consentCookies cfg (hostname p))]) with 0%nat. lia.
  - destruct (page_closed env 0); [unfold count_of; simpl; lia|]. destruct (addCookies_error env); [unfold count_of; simpl; lia|].
    pose proof (nav_loop_count_le is_validate 3 cfg (Patchright.attempt cfg parse env url)
                  Patchright.backoff (jitter env)
                  (patchright_attempt_validates_le cfg parse env url)
                  (fun i d => eq_refl) (Z.to_nat (maxRetries cfg)) 0 (initialRetryDelay cfg)) as G.
    destruct (nav_loop _ _ _ _ _ _ _) as [es r]. cbn [fst] in *.
    change (AddCookies (consentCookies cfg (hostname p)) :: es)
      with ([AddCookies (consentCookies cfg (hostname p))] ++ es)%list.
    rewrite count_of_app. change (count_of is_validate [AddCookies (consentCookies cfg (hostname p))]) with 0%nat. lia.
Qed.

(* ------------------------------------------------------------------ *)
(** * Content check: the word count *)

Lemma count_runs_false_zero s :
  count_runs false s = 0%nat <-> (forall c, In c (list_ascii_of_string s) -> is_space c = true).
Proof.
  induction s as [|c s IH]; simpl.
  - split; [intros _ c []|reflexivity].
  - destruct (is_space c) eqn:E.
    + rewrite IH. split.
      * intros H c' [<-|Hc']; [exact E|exact (H c' Hc')].
      * intros H c' Hc'. exact (H c' (or_intror Hc')).
    + split; [discriminate|]. intros H. rewrite (H c (or_introl eq_refl)) in E. discriminate.
Qed.

Lemma count_runs_space_app w a sp b :
  is_space sp = true ->
  count_runs w (a ++ String sp b) = (count_runs w a + count_runs false b)%nat.
Proof.
  intros Hsp. revert w; induction a as [|c a IH]; intros w; simpl.
  - rewrite Hsp. reflexivity.
  - destruct (is_space c); [apply IH|]. destruct w; [apply IH|]. rewrite IH. reflexivity.
Qed.

(** An empty or blank text ([text.trim().split(/\s+/)] is [[""]]) counts
    as one word. *)
Theorem blank_text_counts_one_word t :
  (forall c, In c (list_ascii_of_string t) -> is_space c = true) ->
  word_count t = 1.
Proof.
  intros H. apply count_runs_false_zero in H. unfold word_count. rewrite H. reflexivity.
Qed.

Lemma blank_text_counts_one_word_witness :
  (forall c, In c (list_ascii_of_string (String "010" (String " " ""))) -> is_space c = true) /\
  word_count (String "010" (String " " "")) = 1.
Proof.
  assert (H : forall c, In c (list_ascii_of_string (String "010" (String " " ""))) -> is_space c = true)
    by (intros c [<-|[<-|[]]]; reflexivity).
  split; [exact H|]. exact (blank_text_counts_one_word _ H).
Defined.

(** Two texts with a word each, joined by a whitespace character, count
    as many words as the two together. *)
Theorem word_count_join a sp b :
  is_space sp = true ->
  (exists c, In c (list_ascii_of_string a) /\ is_space c = false) ->
  (exists c, In c (list_ascii_of_string b) /\ is_space c = false) ->
  word_count (a ++ String sp b) = word_count a + word_count b.
Proof.
  intros Hsp [c [Hc Hcs]] [d [Hd Hds]].
  assert (Ha : count_runs false a <> 0%nat).
  { rewrite count_runs_false_zero. intros H. rewrite (H c Hc) in Hcs. discriminate. }
  assert (Hb : count_runs false b <> 0%nat).
  { rewrite count_runs_false_zero. intros H. rewrite (H d Hd) in Hds. discriminate. }
  unfold word_count. rewrite count_runs_space_app by exact Hsp.
  destruct (count_runs false a) as [|n] eqn:Ea; [contradiction|].
  destruct (count_runs false b) as [|m] eqn:Eb; [contradiction|].
  simpl. lia.
Qed.

Lemma word_count_join_witness :
  is_space " " = true /\
  (exists c, In c (list_ascii_of_string "hello big") /\ is_space c = false) /\
  (exists c, In c (list_ascii_of_string "world") /\ is_space c = false) /\
  word_count ("hello big" ++ String " " "world") = word_count "hello big" + word_count "world".
Proof.
  assert (H1 : exists c, In c (list_ascii_of_string "hello big") /\ is_space c = false)
    by (exists "h"%char; split; [left; reflexivity|reflexivity]).
  assert (H2 : exists c, In c (list_ascii_of_string "world") /\ is_space c = false)
    by (exists "w"%char; split; [left; reflexivity|reflexivity]).
  split; [reflexivity|]. split; [exact H1|]. split; [exact H2|].
  exact (word_count_join "hello big" " "%char "world" eq_refl H1 H2).
Defined.

(* ------------------------------------------------------------------ *)
(** * Consent dialog: bounded interaction *)

Lemma consent_loop_queries q a fuel :
  (count_of is_query (PlaywrightConsent.consent_loop q a fuel) <= 2 * fuel)%nat.
Proof.
  revert a; induction fuel as [|f IH]; intros a; [unfold count_of; simpl; lia|].
  cbn [PlaywrightConsent.consent_loop].
  specialize (IH (S a)).
  set (pause := if (a <? 2)%nat then [CWaitMs 1000] else []).
  assert (Hp : count_of is_query pause = 0%nat)
    by (unfold pause; destruct (a <? 2)%nat; reflexivity).
  destruct (q (2 * a)%nat) as [[|]|].
  - destruct (q (2 * a + 1)%nat) as [[|]|].
    + change (CQuery :: CClickAccept :: CWaitDialogGone :: CWaitMs 1000 :: CQuery ::
              pause ++ PlaywrightConsent.consent_loop q (S a) f)%list
        with ([CQuery; CClickAccept; CWaitDialogGone; CWaitMs 1000; CQuery] ++
              pause ++ PlaywrightConsent.consent_loop q (S a) f)%list.
      rewrite !count_of_app. unfold count_of at 1. simpl filter. simpl List.length. lia.
    + unfold count_of; simpl. lia.
    + change (CQuery :: CClickAccept :: CWaitDialogGone :: CWaitMs 1000 :: CQuery ::
              pause ++ PlaywrightConsent.consent_loop q (S a) f)%list
        with ([CQuery; CClickAccept; CWaitDialogGone; CWaitMs 1000; CQuery] ++
              pause ++ PlaywrightConsent.consent_loop q (S a) f)%list.
      rewrite !count_of_app. unfold count_of at 1. simpl filter. simpl List.length. lia.
  - unfold count_of; simpl. lia.
  - change (CQuery :: pause ++ PlaywrightConsent.consent_loop q (S a) f)%list
      with ([CQuery] ++ pause ++ PlaywrightConsent.consent_loop q (S a) f)%list.
    rewrite !count_of_app. unfold count_of at 1. simpl filter. simpl List.length. lia.
Qed.

(** Whatever the page answers, browser.ts's [dismissGoogleConsent] looks
    the consent dialog up ([page.$]) at most 6 times: at most twice in
    each of its 3 attempts. part_017's looks it up at most once. *)
Theorem consent_lookups_bounded cfg env :
  (count_of is_query (PlaywrightConsent.dismissGoogleConsent cfg env) <= 6)%nat /\
  (count_of is_query (PatchrightConsent.dismissGoogleConsent env) <= 1)%nat.
Proof.
  split.
  - unfold PlaywrightConsent.dismissGoogleConsent.
    destruct (existsb _ _); [|unfold count_of; simpl; lia].
    pose proof (consent_loop_queries (query env) 0 3) as H.
    unfold count_of in *; simpl. exact H.
  - unfold PatchrightConsent.dismissGoogleConsent.
    destruct (cons_closed env); [unfold count_of; simpl; lia|].
    destruct (addCookies_fails env); [unfold count_of; simpl; lia|].
    destruct (inject_fails env); [unfold count_of; simpl; lia|].
    destruct (query env 0) as [[|]|]; unfold count_of; simpl; lia.
Qed.
